(** * Digital-twin simulation engine of [confirm_server.py]

    Shallow embedding of the route / zone / truck-state engine of the
    waste-collection backend.  The three module-level registries of the
    Python program ([routes], [zones], [truck_state]) are gathered in one
    [Store] record that every operation threads explicitly.  Python floats
    are modelled as exact rationals [Q] (the energy formula is also given
    over IEEE doubles, to compare its rounding); the great-circle distance
    [haversine_km] (trigonometry) is a parameter of the development. *)

From Stdlib Require Import ZArith NArith QArith String Ascii List Bool Lia.
From Stdlib Require Import Floats.
Import ListNotations.
Open Scope string_scope.
Open Scope Z_scope.

(** ** Configuration constants *)

Definition ALPHA_KWH_PER_KM : Q := 86 # 100.
Definition BETA_KWH_PER_KG_KM : Q := ALPHA_KWH_PER_KM / (10000 # 1).
Definition MAX_BATTERY_KWH : Q := 100 # 1.
Definition MIN_BATTERY_KWH : Q := 20 # 1.
Definition MAX_LOAD_KG : Q := 5000 # 1.
Definition DEPOT_NAME : string := "Parking".

(** Demo coordinates ([COORDS]), latitude and longitude. *)
Definition COORDS : list (string * (Q * Q)) :=
  [ ("Parking", (40996301 # 1000000, 288846 # 10000));
    ("61", (409970 # 10000, 288850 # 10000));
    ("31", (409980 # 10000, 288860 # 10000));
    ("12", (409990 # 10000, 288870 # 10000));
    ("18", (410000 # 10000, 288880 # 10000));
    ("22", (409950 # 10000, 288830 # 10000));
    ("35", (409940 # 10000, 288820 # 10000));
    ("44", (409930 # 10000, 288810 # 10000));
    ("52", (409920 # 10000, 288800 # 10000));
    ("70", (409910 # 10000, 288790 # 10000));
    ("81", (409900 # 10000, 288780 # 10000));
    ("99", (409890 # 10000, 288770 # 10000)) ].

(** ** Data model *)

Inductive RouteStatus := RoutePending | RouteInProgress | RouteCollected.
Inductive ZoneStatus := ZonePending | ZoneCollected.
Inductive TruckStatus :=
  IDLE | COLLECTING | EMERGENCY_RETURN | CAPACITY_RETURN | DONE.

Record Route := mkRoute {
  r_truckId : Z;
  nodeSequence : list string;
  totalDistanceKm : Q;
  totalEnergyKWh : Q;
  totalCollectedWeightKg : Q;
  r_status : RouteStatus }.

Record Zone := mkZone {
  z_id : Z;
  z_truckId : Z;
  z_zone : string;
  binId : Z;
  fillLevelPercent : Z;
  estimatedWeightKg : Q;
  z_status : ZoneStatus }.

Record TruckState := mkTruckState {
  truckId : Z;
  currentLocation : string;
  cumDistanceKm : Q;
  cumCollectedWeightKg : Q;
  cumEnergyKWh : Q;
  batteryKWh : Q;
  fillRatio : Q;
  efficiencyKWhPerKg : Q;
  rangeLeftKm : Q;
  t_status : TruckStatus }.

(** The three registries.  [truck_state] is a Python dict: an association
    list in insertion order, assignment to an existing key keeps its place. *)
Record Store := mkStore {
  routes : list Route;
  zones : list Zone;
  truck_state : list (Z * TruckState) }.

Definition set_routes (l : list Route) (st : Store) : Store :=
  mkStore l (zones st) (truck_state st).
Definition set_zones (l : list Zone) (st : Store) : Store :=
  mkStore (routes st) l (truck_state st).
Definition set_truck_state (l : list (Z * TruckState)) (st : Store) : Store :=
  mkStore (routes st) (zones st) l.

Definition route_with_status (s : RouteStatus) (r : Route) : Route :=
  mkRoute (r_truckId r) (nodeSequence r) (totalDistanceKm r)
    (totalEnergyKWh r) (totalCollectedWeightKg r) s.

Definition zone_with_status (s : ZoneStatus) (z : Zone) : Zone :=
  mkZone (z_id z) (z_truckId z) (z_zone z) (binId z) (fillLevelPercent z)
    (estimatedWeightKg z) s.

Definition ts_with_status (s : TruckStatus) (x : TruckState) : TruckState :=
  mkTruckState (truckId x) (currentLocation x) (cumDistanceKm x)
    (cumCollectedWeightKg x) (cumEnergyKWh x) (batteryKWh x) (fillRatio x)
    (efficiencyKWhPerKg x) (rangeLeftKm x) s.

Definition ts_with_location (l : string) (x : TruckState) : TruckState :=
  mkTruckState (truckId x) l (cumDistanceKm x)
    (cumCollectedWeightKg x) (cumEnergyKWh x) (batteryKWh x) (fillRatio x)
    (efficiencyKWhPerKg x) (rangeLeftKm x) (t_status x).

(** [state["cumDistanceKm"] += d; state["cumEnergyKWh"] += e;
    state["batteryKWh"] -= e]. *)
Definition ts_travel (d e : Q) (x : TruckState) : TruckState :=
  mkTruckState (truckId x) (currentLocation x) (cumDistanceKm x + d)
    (cumCollectedWeightKg x) (cumEnergyKWh x + e) (batteryKWh x - e)
    (fillRatio x) (efficiencyKWhPerKg x) (rangeLeftKm x) (t_status x).

(** [state["cumCollectedWeightKg"] += w]. *)
Definition ts_add_weight (w : Q) (x : TruckState) : TruckState :=
  mkTruckState (truckId x) (currentLocation x) (cumDistanceKm x)
    (cumCollectedWeightKg x + w) (cumEnergyKWh x) (batteryKWh x)
    (fillRatio x) (efficiencyKWhPerKg x) (rangeLeftKm x) (t_status x).

(** ** List and dictionary helpers *)

(** [l[n] = f(l[n])]; indices are always in range where it is used. *)
Fixpoint modify_nth {A} (n : nat) (f : A -> A) (l : list A) : list A :=
  match l, n with
  | [], _ => []
  | x :: r, O => f x :: r
  | x :: r, S m => x :: modify_nth m f r
  end.

(** First element satisfying [p], with its index ([for x in l: if p(x):
    return x]). *)
Fixpoint find_index {A} (p : A -> bool) (l : list A) : option (nat * A) :=
  match l with
  | [] => None
  | x :: r =>
      if p x then Some (O, x)
      else match find_index p r with
           | Some (i, y) => Some (S i, y)
           | None => None
           end
  end.

Fixpoint ts_lookup (k : Z) (d : list (Z * TruckState)) : option TruckState :=
  match d with
  | [] => None
  | (k', v) :: r => if Z.eqb k' k then Some v else ts_lookup k r
  end.

(** [d[k] = v] on a Python dict. *)
Fixpoint ts_insert (k : Z) (v : TruckState) (d : list (Z * TruckState))
  : list (Z * TruckState) :=
  match d with
  | [] => [(k, v)]
  | (k', v') :: r => if Z.eqb k' k then (k', v) :: r else (k', v') :: ts_insert k v r
  end.

(** ** Integer / string conversions used on node names *)

Definition digit_of (c : ascii) : option Z :=
  let n := Z.of_nat (nat_of_ascii c) in
  if (48 <=? n) && (n <=? 57) then Some (n - 48) else None.

Fixpoint parse_digits (s : string) (acc : Z) : option Z :=
  match s with
  | EmptyString => Some acc
  | String c r =>
      match digit_of c with
      | Some d => parse_digits r (acc * 10 + d)
      | None => None
      end
  end.

(** Python's [int(node)] on a node name: an optional sign followed by at
    least one decimal digit ([ValueError], here [None], otherwise).  Python
    also accepts surrounding blanks and [_] separators, which no node name
    of the program contains. *)
Definition parse_int (s : string) : option Z :=
  match s with
  | String "-" (String _ _ as r) => option_map Z.opp (parse_digits r 0)
  | String "+" (String _ _ as r) => parse_digits r 0
  | String _ _ => parse_digits s 0
  | EmptyString => None
  end.

Fixpoint digits_of_N (fuel : nat) (n : N) (acc : string) : string :=
  match fuel with
  | O => acc
  | S f =>
      let acc' := String (ascii_of_N (48 + N.modulo n 10)) acc in
      if N.eqb (N.div n 10) 0 then acc' else digits_of_N f (N.div n 10) acc'
  end.

Definition string_of_N (n : N) : string :=
  match n with
  | N0 => "0"
  | Npos p => digits_of_N (Pos.size_nat p) n ""
  end.

(** Python's [str(i)] on an integer. *)
Definition string_of_Z (z : Z) : string :=
  match z with
  | Zneg p => String "-" (string_of_N (Npos p))
  | _ => string_of_N (Z.to_N z)
  end.

Example parse_int_61 : parse_int "61" = Some 61.
Proof. reflexivity. Qed.
Example parse_int_depot : parse_int "Parking" = None.
Proof. reflexivity. Qed.
Example string_of_Z_61 : string_of_Z 61 = "61".
Proof. reflexivity. Qed.
Example string_of_Z_1000 : string_of_Z 1000 = "1000".
Proof. reflexivity. Qed.

(** ** Registries *)

Definition init_truck_state (truck_id : Z) : TruckState :=
  mkTruckState truck_id DEPOT_NAME 0%Q 0%Q 0%Q MAX_BATTERY_KWH 0%Q 0%Q
    ((MAX_BATTERY_KWH / ALPHA_KWH_PER_KM) * (8 # 10))%Q IDLE.

(** [init_truck_state_if_needed(truck_id, reset)]. *)
Definition init_truck_state_if_needed (truck_id : Z) (reset : bool) (st : Store)
  : Store :=
  if reset || negb (match ts_lookup truck_id (truck_state st) with
                    | Some _ => true | None => false end)
  then set_truck_state (ts_insert truck_id (init_truck_state truck_id)
                          (truck_state st)) st
  else st.

(** [truck_state[truck_id]], read where the key is known to be present
    (right after [init_truck_state_if_needed]). *)
Definition ts_get (truck_id : Z) (st : Store) : TruckState :=
  match ts_lookup truck_id (truck_state st) with
  | Some s => s
  | None => init_truck_state truck_id
  end.

Definition ts_set (truck_id : Z) (s : TruckState) (st : Store) : Store :=
  set_truck_state (ts_insert truck_id s (truck_state st)) st.

(** [reset_all_states()]. *)
Definition reset_all_states (st : Store) : Store :=
  let st1 := set_truck_state [] st in
  let st2 := set_zones (map (zone_with_status ZonePending) (zones st1)) st1 in
  let st3 := set_routes (map (route_with_status RoutePending) (routes st2)) st2 in
  fold_left (fun s r => init_truck_state_if_needed (r_truckId r) true s)
    (routes st3) st3.

Definition get_route_for_truck (truck_id : Z) (st : Store) : option (nat * Route) :=
  find_index (fun r => Z.eqb (r_truckId r) truck_id) (routes st).

Definition get_zones_for_truck (truck_id : Z) (st : Store) : list Zone :=
  filter (fun z => Z.eqb (z_truckId z) truck_id) (zones st).

Definition is_collected (z : Zone) : bool :=
  match z_status z with ZoneCollected => true | ZonePending => false end.

Definition is_pending (z : Zone) : bool :=
  match z_status z with ZonePending => true | ZoneCollected => false end.

(** The status [update_route_status] assigns for a list of owned zones. *)
Definition route_status_of (truck_zones : list Zone) : RouteStatus :=
  if forallb is_collected truck_zones then RouteCollected
  else if existsb is_collected truck_zones then RouteInProgress
  else RoutePending.

(** [update_route_status(truck_id)]. *)
Definition update_route_status (truck_id : Z) (st : Store) : Store :=
  match get_route_for_truck truck_id st with
  | None => st
  | Some (i, _) =>
      let s := route_status_of (get_zones_for_truck truck_id st) in
      set_routes (modify_nth i (route_with_status s) (routes st)) st
  end.

(** The [ordered_bins] loop of [next_pending_zone_for_truck]. *)
Fixpoint ordered_bins (nodes : list string) : list Z :=
  match nodes with
  | [] => []
  | node :: r =>
      if String.eqb node DEPOT_NAME then ordered_bins r
      else match parse_int node with
           | Some b => b :: ordered_bins r
           | None => ordered_bins r
           end
  end.

Fixpoint first_pending_at (bins : list Z) (truck_zones : list Zone) : option Zone :=
  match bins with
  | [] => None
  | b :: r =>
      match find_index (fun z => Z.eqb (binId z) b && is_pending z) truck_zones with
      | Some (_, z) => Some z
      | None => first_pending_at r truck_zones
      end
  end.

(** [next_pending_zone_for_truck(truck_id)]. *)
Definition next_pending_zone_for_truck (truck_id : Z) (st : Store) : option Zone :=
  match get_route_for_truck truck_id st with
  | None => None
  | Some (_, route) =>
      first_pending_at (ordered_bins (nodeSequence route))
        (get_zones_for_truck truck_id st)
  end.

(** ** Energy model and KPIs *)

(** [calculate_energy_kwh(distance_km, current_carried_weight_kg)]. *)
Definition calculate_energy_kwh (distance_km current_carried_weight_kg : Q) : Q :=
  let base := (ALPHA_KWH_PER_KM * distance_km)%Q in
  let weight_part := (BETA_KWH_PER_KG_KM * distance_km * current_carried_weight_kg)%Q in
  (base + weight_part)%Q.

(** The same constants and [calculate_energy_kwh] over IEEE doubles, the
    operations in the order Python evaluates them:
    [ALPHA * d], then [(BETA * d) * w], then their sum. *)
#[warnings="-inexact-float"]
Definition ALPHA_KWH_PER_KM_f : PrimFloat.float := 0.86%float.
Definition BETA_KWH_PER_KG_KM_f : PrimFloat.float :=
  PrimFloat.div ALPHA_KWH_PER_KM_f 10000%float.

Definition calculate_energy_kwh_f (distance_km current_carried_weight_kg : PrimFloat.float)
  : PrimFloat.float :=
  let base := PrimFloat.mul ALPHA_KWH_PER_KM_f distance_km in
  let weight_part := PrimFloat.mul (PrimFloat.mul BETA_KWH_PER_KG_KM_f distance_km)
                       current_carried_weight_kg in
  PrimFloat.add base weight_part.

Definition q_lt (a b : Q) : bool := negb (Qle_bool b a).

(** [update_kpis(state)]; [max(w, 1.0)] returns [w] unless [1.0 > w]. *)
Definition update_kpis (x : TruckState) : TruckState :=
  let fill := if q_lt 0 MAX_LOAD_KG then (cumCollectedWeightKg x / MAX_LOAD_KG)%Q else 0%Q in
  let denom := if q_lt (cumCollectedWeightKg x) 1 then 1%Q else cumCollectedWeightKg x in
  mkTruckState (truckId x) (currentLocation x) (cumDistanceKm x)
    (cumCollectedWeightKg x) (cumEnergyKWh x) (batteryKWh x)
    fill (cumEnergyKWh x / denom)%Q
    ((batteryKWh x / ALPHA_KWH_PER_KM) * (8 # 10))%Q (t_status x).

Fixpoint coord_lookup (k : string) (l : list (string * (Q * Q))) : option (Q * Q) :=
  match l with
  | [] => None
  | (k', c) :: r => if String.eqb k' k then Some c else coord_lookup k r
  end.

(** Outcome of [confirm_zone]: each [return jsonify(...)] of the handler. *)
Inductive ConfirmResult :=
| ErrRouteNotFound
| ErrZoneNotFound
| ErrWrongTruck
| ErrNotPending
| ErrNoPendingLeft
| ErrNotNext (expectedNextZoneId expectedNextBinId : Z)
| ErrBattery (battery neededEnergy : Q)
| ErrCapacity (cumCollected : Q)
| Confirmed (state : TruckState) (zone : Zone) (route : option Route).

Section Engine.

(** Great-circle distance between two (lat, lon) points. *)
Variable haversine_km : Q * Q -> Q * Q -> Q.

(** [calculate_distance_km(current_loc, next_loc)]. *)
Definition calculate_distance_km (current_loc next_loc : string) : Q :=
  match coord_lookup current_loc COORDS, coord_lookup next_loc COORDS with
  | Some c1, Some c2 => haversine_km c1 c2
  | _, _ => 5 # 2
  end.

(** [confirm_zone()] for the body [{"truckId": truck_id, "zoneId": zone_id}]:
    the response and the registries afterwards. *)
Definition confirm_zone (truck_id zone_id : Z) (st0 : Store) : ConfirmResult * Store :=
  let st := init_truck_state_if_needed truck_id false st0 in
  match get_route_for_truck truck_id st with
  | None => (ErrRouteNotFound, st)
  | Some _ =>
  match find_index (fun z => Z.eqb (z_id z) zone_id) (zones st) with
  | None => (ErrZoneNotFound, st)
  | Some (zi, zone) =>
  if negb (Z.eqb (z_truckId zone) truck_id) then (ErrWrongTruck, st) else
  if negb (is_pending zone) then (ErrNotPending, st) else
  match next_pending_zone_for_truck truck_id st with
  | None => (ErrNoPendingLeft, st)
  | Some expected =>
  if negb (Z.eqb (z_id expected) zone_id)
  then (ErrNotNext (z_id expected) (binId expected), st) else
  let state := ts_get truck_id st in
  let distance_km := calculate_distance_km (currentLocation state)
                       (string_of_Z (binId zone)) in
  let energy_kwh := calculate_energy_kwh distance_km (cumCollectedWeightKg state) in
  if q_lt (batteryKWh state - energy_kwh)%Q MIN_BATTERY_KWH
  then (ErrBattery (batteryKWh state) energy_kwh, st) else
  let state1 := ts_add_weight (estimatedWeightKg zone)
                  (ts_travel distance_km energy_kwh state) in
  if q_lt MAX_LOAD_KG (cumCollectedWeightKg state1)
  then (ErrCapacity (cumCollectedWeightKg state1),
        ts_set truck_id (ts_with_status CAPACITY_RETURN state1) st) else
  let state2 := update_kpis (ts_with_status COLLECTING
                  (ts_with_location (string_of_Z (binId zone)) state1)) in
  let st1 := ts_set truck_id state2 st in
  let st2 := set_zones (modify_nth zi (zone_with_status ZoneCollected) (zones st1)) st1 in
  let st3 := update_route_status truck_id st2 in
  (Confirmed state2 (zone_with_status ZoneCollected zone)
     (option_map snd (get_route_for_truck truck_id st3)), st3)
  end
  end
  end.
End Engine.

(** ** The static configuration *)

Definition config_routes : list Route :=
  [ mkRoute 1 ["Parking"; "61"; "31"; "12"; "18"; "Parking"]
      (184 # 10) (202 # 10) (140 # 1) RoutePending;
    mkRoute 2 ["Parking"; "22"; "35"; "44"; "Parking"]
      (151 # 10) (166 # 10) (105 # 1) RoutePending;
    mkRoute 3 ["Parking"; "52"; "70"; "81"; "99"; "Parking"]
      (217 # 10) (239 # 10) (140 # 1) RoutePending ].

Definition config_zones : list Zone :=
  [ mkZone 101 1 "Zone A1" 61 80 (35 # 1) ZonePending;
    mkZone 102 1 "Zone A2" 31 60 (30 # 1) ZonePending;
    mkZone 103 1 "Zone B1" 12 75 (40 # 1) ZonePending;
    mkZone 104 1 "Zone B2" 18 50 (35 # 1) ZonePending;
    mkZone 201 2 "Zone C1" 22 70 (35 # 1) ZonePending;
    mkZone 202 2 "Zone C2" 35 65 (35 # 1) ZonePending;
    mkZone 203 2 "Zone D1" 44 55 (35 # 1) ZonePending;
    mkZone 301 3 "Zone D2" 52 85 (35 # 1) ZonePending;
    mkZone 302 3 "Zone E1" 70 90 (35 # 1) ZonePending;
    mkZone 303 3 "Zone E2" 81 65 (35 # 1) ZonePending;
    mkZone 304 3 "Zone F1" 99 40 (35 # 1) ZonePending ].

(** The registries when the module is loaded: [truck_state = {}]. *)
Definition initial_store : Store := mkStore config_routes config_zones [].

(** A stand-in great-circle distance used to run the engine on examples. *)
Definition flat_km (c1 c2 : Q * Q) : Q := 1 # 10.

(** ** Full-route simulation (timeline mode) *)

Inductive Event := TRAVEL | COLLECTED_BIN | BATTERY_EMERGENCY_RETURN | CAPACITY_EXCEEDED_RETURN.

(** One timeline entry; [e_kpis] holds [fillRatio], [efficiencyKWhPerKg]
    and [rangeLeftKm] for the ordinary entries, [e_zone] the [zoneId] and
    [binId] of a capacity entry. *)
Record Entry := mkEntry {
  e_truckId : Z;
  e_step : Z;
  e_from : string;
  e_to : string;
  e_distanceKm : Q;
  e_energyKWh : Q;
  e_event : Event;
  e_batteryKWhBefore : Q;
  e_batteryKWhAfter : Q;
  e_loadKg : Q;
  e_kpis : option (Q * Q * Q);
  e_zone : option (Z * Z) }.

Inductive SimError := SimRouteNotFound | SimBadDepot.

Inductive SimResult :=
| SimErr (err : SimError)
| SimOk (truck_id : Z) (finalState : TruckState) (route : option Route)
        (truck_zones : list Zone) (timeline : list Entry).

(** [zone_by_bin = {int(z["binId"]): z for z in truck_zones}]: each bin
    mapped to the position in [zones] of the zone object (a later zone of
    the same bin overrides an earlier one). *)
Fixpoint zone_positions (truck_id : Z) (n : nat) (zs : list Zone) : list (Z * nat) :=
  match zs with
  | [] => []
  | z :: r =>
      if Z.eqb (z_truckId z) truck_id then (binId z, n) :: zone_positions truck_id (S n) r
      else zone_positions truck_id (S n) r
  end.

Definition zone_by_bin (truck_id : Z) (st : Store) : list (Z * nat) :=
  zone_positions truck_id O (zones st).

Definition zbb_lookup (b : Z) (zbb : list (Z * nat)) : option nat :=
  fold_left (fun acc '(b', i) => if Z.eqb b' b then Some i else acc) zbb None.

(** The pending zone collected on arrival at [dst], if any. *)
Definition collect_target (zbb : list (Z * nat)) (dst : string) (st : Store)
  : option (nat * Zone) :=
  if String.eqb dst DEPOT_NAME then None else
  match parse_int dst with
  | None => None
  | Some b =>
      match zbb_lookup b zbb with
      | None => None
      | Some zi =>
          match nth_error (zones st) zi with
          | Some z => if is_pending z then Some (zi, z) else None
          | None => None
          end
      end
  end.

(** The "Finalize status" block. *)
Definition finalize_status (truck_id : Z) (st : Store) : Store :=
  let state := ts_get truck_id st in
  match t_status state with
  | EMERGENCY_RETURN | CAPACITY_RETURN => st
  | _ =>
      if forallb is_collected (get_zones_for_truck truck_id st)
      then update_route_status truck_id (ts_set truck_id (ts_with_status DONE state) st)
      else st
  end.

Definition has_depot_ends (node_seq : list string) : bool :=
  match node_seq with
  | [] => false
  | n0 :: _ => String.eqb n0 DEPOT_NAME && String.eqb (last node_seq n0) DEPOT_NAME
  end.

Section Simulation.

Variable haversine_km : Q * Q -> Q * Q -> Q.

(** The [for step_idx in range(len(node_seq) - 1)] loop, from the segment
    [src -> dst] with [dst] the head of [rest]. *)
Fixpoint walk (truck_id : Z) (zbb : list (Z * nat)) (step : Z) (src : string)
  (rest : list string) (st : Store) : Store * list Entry :=
  match rest with
  | [] => (st, [])
  | dst :: rest' =>
      let state := ts_get truck_id st in
      let distance_km := calculate_distance_km haversine_km src dst in
      let energy_kwh := calculate_energy_kwh distance_km (cumCollectedWeightKg state) in
      if q_lt (batteryKWh state - energy_kwh)%Q MIN_BATTERY_KWH then
        (ts_set truck_id (ts_with_status EMERGENCY_RETURN state) st,
         [mkEntry truck_id step src dst distance_km energy_kwh BATTERY_EMERGENCY_RETURN
            (batteryKWh state) (batteryKWh state) (cumCollectedWeightKg state) None None])
      else
        let battery_before := batteryKWh state in
        let state1 := ts_with_location dst (ts_travel distance_km energy_kwh state) in
        let st1 := ts_set truck_id state1 st in
        match collect_target zbb dst st1 with
        | Some (zi, z) =>
            let state2 := ts_add_weight (estimatedWeightKg z) state1 in
            let st2 := update_route_status truck_id
                         (set_zones (modify_nth zi (zone_with_status ZoneCollected) (zones st1))
                            (ts_set truck_id state2 st1)) in
            if q_lt MAX_LOAD_KG (cumCollectedWeightKg state2) then
              (ts_set truck_id (ts_with_status CAPACITY_RETURN state2) st2,
               [mkEntry truck_id step src dst distance_km energy_kwh CAPACITY_EXCEEDED_RETURN
                  battery_before (batteryKWh state2) (cumCollectedWeightKg state2) None
                  (Some (z_id z, binId z))])
            else
              let state3 := update_kpis state2 in
              let '(st4, tl) := walk truck_id zbb (step + 1) dst rest' (ts_set truck_id state3 st2) in
              (st4, mkEntry truck_id step src dst distance_km energy_kwh COLLECTED_BIN
                      battery_before (batteryKWh state3) (cumCollectedWeightKg state3)
                      (Some (fillRatio state3, efficiencyKWhPerKg state3, rangeLeftKm state3))
                      None :: tl)
        | None =>
            let state3 := update_kpis state1 in
            let '(st4, tl) := walk truck_id zbb (step + 1) dst rest' (ts_set truck_id state3 st1) in
            (st4, mkEntry truck_id step src dst distance_km energy_kwh TRAVEL
                    battery_before (batteryKWh state3) (cumCollectedWeightKg state3)
                    (Some (fillRatio state3, efficiencyKWhPerKg state3, rangeLeftKm state3))
                    None :: tl)
        end
  end.

(** The twin a walk starts from: "Ensure we start from depot". *)
Definition walk_start_state (x : TruckState) : TruckState :=
  update_kpis (ts_with_status COLLECTING (ts_with_location DEPOT_NAME x)).

(** [simulate_truck_full_route(truck_id, reset)]. *)
Definition simulate_truck_full_route (truck_id : Z) (reset : bool) (st : Store)
  : SimResult * Store :=
  let st1 := init_truck_state_if_needed truck_id reset st in
  match get_route_for_truck truck_id st1 with
  | None => (SimErr SimRouteNotFound, st1)
  | Some (_, route) =>
      let node_seq := nodeSequence route in
      if negb (has_depot_ends node_seq) then (SimErr SimBadDepot, st1) else
      match node_seq with
      | [] => (SimErr SimBadDepot, st1)
      | n0 :: rest =>
          let st2 := ts_set truck_id (walk_start_state (ts_get truck_id st1)) st1 in
          let '(st3, timeline) := walk truck_id (zone_by_bin truck_id st2) 0 n0 rest st2 in
          let st4 := finalize_status truck_id st3 in
          (SimOk truck_id (ts_get truck_id st4)
             (option_map snd (get_route_for_truck truck_id st4))
             (get_zones_for_truck truck_id st4) timeline, st4)
      end
  end.

Fixpoint simulate_trucks (tids : list Z) (reset : bool) (st : Store) : list SimResult * Store :=
  match tids with
  | [] => ([], st)
  | t :: r =>
      let '(o, st1) := simulate_truck_full_route t reset st in
      let '(os, st2) := simulate_trucks r reset st1 in
      (o :: os, st2)
  end.

(** [simulate_fleet(reset)]: the [for r in routes] loop; the truck ids of
    [routes] are never modified, so the loop runs over those of the call. *)
Definition simulate_fleet (reset : bool) (st : Store) : list SimResult * Store :=
  simulate_trucks (map r_truckId (routes st)) reset st.

End Simulation.

(** ** The other handlers *)

Definition init_route_trucks (st : Store) : Store :=
  fold_left (fun s r => init_truck_state_if_needed (r_truckId r) false s) (routes st) st.

(** [get_routes()]: the JSON list and the registries afterwards. *)
Definition get_routes (st : Store) : list Route * Store :=
  let st1 := init_route_trucks st in (routes st1, st1).

(** [get_zones()] with the optional [truckId] query parameter. *)
Definition get_zones (truck_id : option Z) (st : Store) : list Zone * Store :=
  match truck_id with
  | None => (zones st, st)
  | Some t => (get_zones_for_truck t st, st)
  end.

(** [get_truck_state()] with the optional [truckId] query parameter. *)
Definition get_truck_state (truck_id : option Z) (st : Store) : list TruckState * Store :=
  let st1 := init_route_trucks st in
  match truck_id with
  | None => (map snd (truck_state st1), st1)
  | Some t =>
      let st2 := init_truck_state_if_needed t false st1 in
      ([ts_get t st2], st2)
  end.

(** [confirm_route()] for the body [{"truckId": truck_id}]. *)
Definition confirm_route (truck_id : Z) (st : Store) : bool * Store :=
  let st1 := init_truck_state_if_needed truck_id false st in
  match get_route_for_truck truck_id st1 with
  | None => (false, st1)
  | Some _ =>
      let st2 := set_zones (map (fun z => if Z.eqb (z_truckId z) truck_id
                                          then zone_with_status ZoneCollected z else z)
                              (zones st1)) st1 in
      let st3 := update_route_status truck_id st2 in
      (true, ts_set truck_id (update_kpis (ts_with_status DONE (ts_get truck_id st3))) st3)
  end.

(** [reset_endpoint()]: the three lists of the response. *)
Definition reset_endpoint (st : Store) : (list Route * list Zone * list TruckState) * Store :=
  let st1 := reset_all_states st in
  ((routes st1, zones st1, map snd (truck_state st1)), st1).

(** Reading the three projections one after the other: [GET /routes],
    [GET /zones], [GET /truck-state]. *)
Definition read_all (st : Store) : list Route * list Zone * list TruckState :=
  let '(rs, st1) := get_routes st in
  let '(zs, st2) := get_zones None st1 in
  let '(ts, _) := get_truck_state None st2 in
  (rs, zs, ts).

(** The requests the transport shell can forward to the engine. *)
Inductive Request :=
| ReqGetRoutes
| ReqGetZones (truck_id : option Z)
| ReqGetTruckState (truck_id : option Z)
| ReqConfirmZone (truck_id zone_id : Z)
| ReqConfirmRoute (truck_id : Z)
| ReqSimulate (truck_id : option Z) (reset : bool)
| ReqReset.

Section Requests.

Variable haversine_km : Q * Q -> Q * Q -> Q.

(** [simulate_endpoint()] on the registries. *)
Definition simulate_endpoint (truck_id : option Z) (reset : bool) (st : Store) : Store :=
  let st1 := if reset then reset_all_states st else st in
  match truck_id with
  | Some t => snd (simulate_truck_full_route haversine_km t false st1)
  | None => snd (simulate_fleet haversine_km false st1)
  end.

Definition handle (req : Request) (st : Store) : Store :=
  match req with
  | ReqGetRoutes => snd (get_routes st)
  | ReqGetZones t => snd (get_zones t st)
  | ReqGetTruckState t => snd (get_truck_state t st)
  | ReqConfirmZone t z => snd (confirm_zone haversine_km t z st)
  | ReqConfirmRoute t => snd (confirm_route t st)
  | ReqSimulate t r => simulate_endpoint t r st
  | ReqReset => snd (reset_endpoint st)
  end.

Definition handle_all (reqs : list Request) (st : Store) : Store :=
  fold_left (fun s r => handle r s) reqs st.

End Requests.

(** * Properties *)

(** ** Basic facts *)

Lemma q_lt_true (a b : Q) : q_lt a b = true <-> (a < b)%Q.
Proof.
  unfold q_lt. rewrite negb_true_iff. split; intro H.
  - apply Qnot_le_lt. intro H'. apply Qle_bool_iff in H'. congruence.
  - destruct (Qle_bool b a) eqn:E; [|reflexivity].
    apply Qle_bool_iff in E. exfalso. apply (Qlt_not_le _ _ H E).
Qed.

Lemma q_lt_false (a b : Q) : q_lt a b = false <-> (b <= a)%Q.
Proof.
  unfold q_lt. rewrite negb_false_iff. apply Qle_bool_iff.
Qed.

Lemma ts_lookup_insert_same (k : Z) (v : TruckState) d :
  ts_lookup k (ts_insert k v d) = Some v.
Proof.
  induction d as [|[k' v'] r IH]; simpl.
  - rewrite Z.eqb_refl. reflexivity.
  - destruct (Z.eqb k' k) eqn:E; simpl; rewrite ?E; auto.
Qed.

Lemma ts_lookup_insert_other (k k0 : Z) (v : TruckState) d :
  k <> k0 -> ts_lookup k0 (ts_insert k v d) = ts_lookup k0 d.
Proof.
  intro Hne. induction d as [|[k' v'] r IH]; simpl.
  - destruct (Z.eqb_spec k k0); congruence.
  - destruct (Z.eqb_spec k' k) as [->|]; simpl.
    + destruct (Z.eqb_spec k k0); congruence.
    + destruct (Z.eqb k' k0); auto.
Qed.

Lemma ts_get_set (t : Z) (s : TruckState) (st : Store) :
  ts_get t (ts_set t s st) = s.
Proof. unfold ts_get, ts_set. simpl. rewrite ts_lookup_insert_same. reflexivity. Qed.

Lemma ts_lookup_set (t : Z) (s : TruckState) (st : Store) :
  ts_lookup t (truck_state (ts_set t s st)) = Some s.
Proof. apply ts_lookup_insert_same. Qed.

Lemma init_if_needed_present (t : Z) (st : Store) :
  ts_lookup t (truck_state st) <> None ->
  init_truck_state_if_needed t false st = st.
Proof.
  unfold init_truck_state_if_needed. intro H.
  destruct (ts_lookup t (truck_state st)); [reflexivity | congruence].
Qed.

Lemma init_if_needed_routes (t : Z) (r : bool) (st : Store) :
  routes (init_truck_state_if_needed t r st) = routes st /\
  zones (init_truck_state_if_needed t r st) = zones st.
Proof.
  unfold init_truck_state_if_needed.
  destruct (_ || _); split; reflexivity.
Qed.

Ltac split_matches :=
  repeat match goal with
  | |- context [match ?x with _ => _ end] =>
      lazymatch x with
      | context [match _ with _ => _ end] => fail
      | _ => let E := fresh "E" in destruct x eqn:E
      end
  end.

Ltac split_matches_in H :=
  repeat match type of H with
  | context [match ?x with _ => _ end] =>
      lazymatch x with
      | context [match _ with _ => _ end] => fail
      | _ => let E := fresh "E" in destruct x eqn:E
      end
  end.

(** ** C2: the energy model *)

(** C2 fails as an exact equality of the program's doubles: for a segment
    of 3 km carrying 35 kg, and for the 2.5 km fallback distance carrying
    105 kg, [calculate_energy_kwh] and [d * (ALPHA + BETA * w)] round to
    different doubles. *)
Lemma energy_float_not_distributive :
  ~ (calculate_energy_kwh_f 3 35 =
       3 * (ALPHA_KWH_PER_KM_f + BETA_KWH_PER_KG_KM_f * 35))%float /\
  ~ (calculate_energy_kwh_f 2.5 105 =
       2.5 * (ALPHA_KWH_PER_KM_f + BETA_KWH_PER_KG_KM_f * 105))%float.
Proof. split; vm_compute; discriminate. Qed.

(** C2 (as the code does it).  The energy of a segment of [d] km carrying
    [w] kg is [ALPHA * d + BETA * d * w], which in exact arithmetic is
    [d * (ALPHA + BETA * w)] (the doubles of the program may differ in the
    last bits, see above); a successful confirmation charges the energy of
    the segment to the bin computed with the load carried before the
    pickup, and only then adds the zone's weight. *)
Theorem energy_uses_load_before_pickup (haversine_km : Q * Q -> Q * Q -> Q)
  (d w : Q) (truck_id zone_id : Z) (st : Store) :
  (calculate_energy_kwh d w == d * (ALPHA_KWH_PER_KM + BETA_KWH_PER_KG_KM * w))%Q /\
  (forall s z r,
     fst (confirm_zone haversine_km truck_id zone_id st) = Confirmed s z r ->
     let s0 := ts_get truck_id (init_truck_state_if_needed truck_id false st) in
     let dist := calculate_distance_km haversine_km (currentLocation s0)
                   (string_of_Z (binId z)) in
     cumEnergyKWh s = (cumEnergyKWh s0 + calculate_energy_kwh dist (cumCollectedWeightKg s0))%Q /\
     batteryKWh s = (batteryKWh s0 - calculate_energy_kwh dist (cumCollectedWeightKg s0))%Q /\
     cumCollectedWeightKg s = (cumCollectedWeightKg s0 + estimatedWeightKg z)%Q).
Proof.
  split.
  - unfold calculate_energy_kwh. ring.
  - intros s z r H. unfold confirm_zone in H. cbv zeta in H.
    split_matches_in H; simpl in H; try discriminate.
    inversion H; subst; clear H. simpl. auto.
Qed.

(** ** C4: the battery guard of [confirm_zone] *)


(** ** C1 and C10: the capacity check of [confirm_zone] *)

Definition find_zone (zone_id : Z) (st : Store) : option (nat * Zone) :=
  find_index (fun z => Z.eqb (z_id z) zone_id) (zones st).


(** The next-pending zone reads only the routes and the zones. *)
Lemma next_pending_frame (t : Z) (st' st : Store) :
  routes st' = routes st -> zones st' = zones st ->
  next_pending_zone_for_truck t st' = next_pending_zone_for_truck t st.
Proof.
  intros HR HZ. unfold next_pending_zone_for_truck, get_route_for_truck, get_zones_for_truck.
  rewrite HR, HZ. reflexivity.
Qed.

(** C10.  After a refusal for capacity the requested zone is still
    [Pending], routes (and their statuses) and zones are unchanged, the twin
    keeps its [currentLocation] and KPIs (not recomputed) and its status
    becomes [CAPACITY_RETURN]; the truck's next-pending zone is still the
    zone with the requested id, as it was before the call. *)
Theorem confirm_zone_capacity_frame (haversine_km : Q * Q -> Q * Q -> Q)
  (truck_id zone_id : Z) (st : Store) (w : Q) :
  fst (confirm_zone haversine_km truck_id zone_id st) = ErrCapacity w ->
  let st' := snd (confirm_zone haversine_km truck_id zone_id st) in
  let s0 := ts_get truck_id (init_truck_state_if_needed truck_id false st) in
  let s1 := ts_get truck_id st' in
  (exists zi zone, find_zone zone_id st' = Some (zi, zone) /\
                   z_status zone = ZonePending /\ z_truckId zone = truck_id) /\
  routes st' = routes st /\
  currentLocation s1 = currentLocation s0 /\
  t_status s1 = CAPACITY_RETURN /\
  fillRatio s1 = fillRatio s0 /\
  efficiencyKWhPerKg s1 = efficiencyKWhPerKg s0 /\
  rangeLeftKm s1 = rangeLeftKm s0 /\
  zones st' = zones st /\
  (exists e, next_pending_zone_for_truck truck_id st' = Some e /\ z_id e = zone_id /\
             next_pending_zone_for_truck truck_id st = Some e).
Proof.
  destruct (confirm_zone haversine_km truck_id zone_id st) as [res st'] eqn:H.
  simpl. intro Hres. subst res.
  unfold confirm_zone in H. cbv zeta in H.
  destruct (init_if_needed_routes truck_id false st) as [HR HZ].
  split_matches_in H; inversion H; subst; clear H.
  rewrite ts_get_set. simpl. split; [|split; [exact HR|repeat split; auto]].
  - do 2 eexists. split; [unfold find_zone; simpl; eassumption|].
    split.
    + match goal with Hp : negb (is_pending _) = false |- _ =>
        apply negb_false_iff in Hp; unfold is_pending in Hp end.
      destruct (z_status _); congruence.
    + match goal with Ht : negb (Z.eqb (z_truckId _) _) = false |- _ =>
        apply negb_false_iff, Z.eqb_eq in Ht end. assumption.
  - match goal with He : next_pending_zone_for_truck _ _ = Some ?e,
                    Hi : negb (Z.eqb (z_id ?e) _) = false |- _ =>
      exists e; apply negb_false_iff, Z.eqb_eq in Hi;
      rewrite (next_pending_frame truck_id _ st HR HZ) in He end.
    split; [|split; [assumption|assumption]].
    rewrite (next_pending_frame truck_id _ st) by (cbn; assumption). assumption.
Qed.

(** A configuration coming from the optimizer with a single heavy zone. *)
Definition heavy_store : Store :=
  mkStore [mkRoute 1 ["Parking"; "61"; "Parking"] (1 # 1) (1 # 1) (6000 # 1) RoutePending]
          [mkZone 101 1 "Zone A1" 61 100 (6000 # 1) ZonePending] [].


(** ** C3: route-order enforcement *)

Lemma find_index_none {A} (p : A -> bool) (l : list A) :
  find_index p l = None -> forall x, In x l -> p x = false.
Proof.
  induction l as [|y r IH]; simpl; [tauto|].
  destruct (p y) eqn:Ep; [discriminate|].
  destruct (find_index p r) as [[? ?]|]; [discriminate|].
  intros _ x [<-|Hx]; auto.
Qed.

Lemma first_pending_at_some (bins : list Z) (tz : list Zone) (z : Zone) :
  In z tz -> is_pending z = true -> In (binId z) bins ->
  exists e, first_pending_at bins tz = Some e.
Proof.
  intros Hz Hp. induction bins as [|b r IH]; simpl; [tauto|].
  intros [Hb|Hb].
  - destruct (find_index _ tz) as [[? e]|] eqn:E; [eauto|].
    exfalso. pose proof (find_index_none _ _ E z Hz) as Hf.
    simpl in Hf. rewrite Hb, Z.eqb_refl, Hp in Hf. discriminate.
  - destruct (find_index _ tz) as [[? e]|]; eauto.
Qed.

Lemma next_pending_init (t t' : Z) (r : bool) (st : Store) :
  next_pending_zone_for_truck t (init_truck_state_if_needed t' r st) =
  next_pending_zone_for_truck t st.
Proof.
  destruct (init_if_needed_routes t' r st) as [HR HZ].
  unfold next_pending_zone_for_truck, get_route_for_truck, get_zones_for_truck.
  rewrite HR, HZ. reflexivity.
Qed.

(** C3.  For a truck with a route: a pending zone of the truck whose bin is
    on the route makes the next-pending zone exist; confirming an owned
    pending zone other than the next-pending one fails with the ordering
    error carrying the expected zone id and bin id and changes nothing (up
    to the lazy creation of the twin); and a confirmation succeeds only for
    the next-pending zone. *)
Theorem confirm_zone_route_order (haversine_km : Q * Q -> Q * Q -> Q)
  (truck_id zone_id : Z) (st : Store) :
  (forall i route z,
     get_route_for_truck truck_id st = Some (i, route) ->
     In z (get_zones_for_truck truck_id st) -> z_status z = ZonePending ->
     In (binId z) (ordered_bins (nodeSequence route)) ->
     exists e, next_pending_zone_for_truck truck_id st = Some e) /\
  (forall zi zone expected,
     get_route_for_truck truck_id st <> None ->
     find_zone zone_id st = Some (zi, zone) ->
     z_truckId zone = truck_id -> z_status zone = ZonePending ->
     next_pending_zone_for_truck truck_id st = Some expected ->
     z_id expected <> zone_id ->
     confirm_zone haversine_km truck_id zone_id st =
       (ErrNotNext (z_id expected) (binId expected),
        init_truck_state_if_needed truck_id false st)) /\
  (forall s z r,
     fst (confirm_zone haversine_km truck_id zone_id st) = Confirmed s z r ->
     exists e, next_pending_zone_for_truck truck_id st = Some e /\ z_id e = zone_id).
Proof.
  split; [|split].
  - intros i route z Hr Hz Hp Hb.
    unfold next_pending_zone_for_truck. rewrite Hr.
    apply (first_pending_at_some _ _ z); auto.
    unfold is_pending. rewrite Hp. reflexivity.
  - intros zi zone expected Hr Hf Ht Hp He Hne.
    destruct (init_if_needed_routes truck_id false st) as [HR HZ].
    unfold confirm_zone. cbv zeta.
    unfold get_route_for_truck at 1. rewrite HR.
    destruct (get_route_for_truck truck_id st) as [[? ?]|] eqn:Er; [|congruence].
    unfold get_route_for_truck in Er. rewrite Er.
    unfold find_zone in Hf. rewrite HZ, Hf.
    rewrite Ht, Z.eqb_refl. simpl. unfold is_pending. rewrite Hp. simpl.
    rewrite next_pending_init, He.
    apply Z.eqb_neq in Hne. rewrite Hne. reflexivity.
  - intros s z r H. unfold confirm_zone in H. cbv zeta in H.
    split_matches_in H; simpl in H; try discriminate.
    rewrite next_pending_init in *.
    eexists. split; [eassumption|].
    match goal with Hn : negb (Z.eqb (z_id _) _) = false |- _ =>
      apply negb_false_iff, Z.eqb_eq in Hn; exact Hn end.
Qed.

Lemma confirm_zone_route_order_witness :
  get_route_for_truck 1 initial_store <> None /\
  confirm_zone flat_km 1 102 initial_store =
    (ErrNotNext 101 61, init_truck_state_if_needed 1 false initial_store).
Proof.
  split; [vm_compute; discriminate|].
  apply (proj1 (proj2 (confirm_zone_route_order flat_km 1 102 initial_store))
           1%nat (mkZone 102 1 "Zone A2" 31 60 (30 # 1) ZonePending)
           (mkZone 101 1 "Zone A1" 61 80 (35 # 1) ZonePending));
    try reflexivity; try (vm_compute; discriminate); lia.
Defined.

(** ** C6: route status derivation *)

Lemma find_index_modify {A} (p : A -> bool) (f : A -> A) (l : list A) i x :
  find_index p l = Some (i, x) -> p (f x) = p x ->
  find_index p (modify_nth i f l) = Some (i, f x).
Proof.
  revert i. induction l as [|y r IH]; intros i Hf Hp; simpl in Hf; [discriminate|].
  destruct (p y) eqn:Ey.
  - inversion Hf; subst. simpl. rewrite Hp, Ey. reflexivity.
  - destruct (find_index p r) as [[j w]|] eqn:Er; [|discriminate].
    inversion Hf; subst. simpl. rewrite Ey. rewrite (IH j); auto.
Qed.

(** A route owning no zone (a truck id of [routes] that no zone carries). *)
Definition zoneless_store : Store :=
  mkStore [mkRoute 4 ["Parking"; "Parking"] 0 0 0 RoutePending] config_zones [].

(** C6 fails on the zero-zones case: [all(...)] over no zone is true, so
    the route of a truck without zones becomes [Collected], not [Pending]. *)
Lemma zoneless_route_collected :
  option_map (fun p => r_status (snd p))
    (get_route_for_truck 4 (update_route_status 4 zoneless_store)) = Some RouteCollected.
Proof. vm_compute. reflexivity. Qed.

(** C6 (as the code does it).  Recomputing a route's status stores
    [route_status_of] of the truck's zones: [Collected] iff every owned zone
    is collected (so also when the truck owns no zone), [InProgress] iff
    some but not all are, [Pending] iff the truck owns zones and none is
    collected. *)
Theorem route_status_derivation (truck_id : Z) (st : Store) (i : nat) (route : Route) :
  get_route_for_truck truck_id st = Some (i, route) ->
  let tz := get_zones_for_truck truck_id st in
  get_route_for_truck truck_id (update_route_status truck_id st) =
    Some (i, route_with_status (route_status_of tz) route) /\
  (route_status_of tz = RouteCollected <->
     forall z, In z tz -> z_status z = ZoneCollected) /\
  (route_status_of tz = RouteInProgress <->
     (exists z, In z tz /\ z_status z = ZoneCollected) /\
     (exists z, In z tz /\ z_status z = ZonePending)) /\
  (route_status_of tz = RoutePending <->
     tz <> [] /\ forall z, In z tz -> z_status z = ZonePending).
Proof.
  intros Hr tz. split; [|split; [|split]].
  - unfold update_route_status. rewrite Hr.
    unfold get_route_for_truck. simpl.
    apply find_index_modify; [exact Hr | reflexivity].
  - unfold route_status_of.
    destruct (forallb is_collected tz) eqn:Ea.
    + split; [|reflexivity]. intros _ z Hz.
      rewrite forallb_forall in Ea. specialize (Ea z Hz).
      unfold is_collected in Ea. destruct (z_status z); congruence.
    + split; [destruct (existsb is_collected tz); discriminate|].
      intro H. exfalso. apply Bool.not_true_iff_false in Ea. apply Ea.
      apply forallb_forall. intros z Hz. unfold is_collected. rewrite (H z Hz). reflexivity.
  - unfold route_status_of.
    destruct (forallb is_collected tz) eqn:Ea; destruct (existsb is_collected tz) eqn:Ee.
    + split; [discriminate|]. intros [_ [z [Hz Hp]]].
      rewrite forallb_forall in Ea. specialize (Ea z Hz).
      unfold is_collected in Ea. rewrite Hp in Ea. discriminate.
    + split; [discriminate|]. intros [_ [z [Hz Hp]]].
      rewrite forallb_forall in Ea. specialize (Ea z Hz).
      unfold is_collected in Ea. rewrite Hp in Ea. discriminate.
    + split; [intros _|reflexivity]. split.
      * apply existsb_exists in Ee. destruct Ee as [z [Hz Hc]]. exists z.
        unfold is_collected in Hc. destruct (z_status z); [discriminate|auto].
      * apply Bool.not_true_iff_false in Ea.
        destruct (existsb (fun z => negb (is_collected z)) tz) eqn:En.
        -- apply existsb_exists in En. destruct En as [z [Hz Hc]]. exists z.
           unfold is_collected in Hc. destruct (z_status z); [auto|discriminate].
        -- exfalso. apply Ea. apply forallb_forall. intros z Hz.
           apply Bool.not_true_iff_false in En.
           destruct (is_collected z) eqn:Ec; [reflexivity|].
           exfalso. apply En. apply existsb_exists. exists z. rewrite Ec. auto.
    + split; [discriminate|]. intros [[z [Hz Hc]] _]. exfalso.
      apply Bool.not_true_iff_false in Ee. apply Ee. apply existsb_exists.
      exists z. unfold is_collected. rewrite Hc. auto.
  - unfold route_status_of.
    destruct (forallb is_collected tz) eqn:Ea; [|destruct (existsb is_collected tz) eqn:Ee].
    + split; [discriminate|]. intros [Hne Hp].
      destruct tz as [|z r]; [congruence|].
      simpl in Ea. apply andb_true_iff in Ea. destruct Ea as [Ec _].
      unfold is_collected in Ec. rewrite (Hp z (or_introl eq_refl)) in Ec. discriminate.
    + split; [discriminate|]. intros [_ Hp].
      apply existsb_exists in Ee. destruct Ee as [z [Hz Hc]].
      unfold is_collected in Hc. rewrite (Hp z Hz) in Hc. discriminate.
    + split; [intros _|reflexivity]. split.
      * intro Hn. rewrite Hn in Ea. discriminate.
      * intros z Hz. destruct (z_status z) eqn:Es; [reflexivity|].
        exfalso. apply Bool.not_true_iff_false in Ee. apply Ee.
        apply existsb_exists. exists z. unfold is_collected. rewrite Es. auto.
Qed.

Lemma route_status_derivation_witness :
  get_route_for_truck 1 initial_store = Some (0%nat, hd (mkRoute 0 [] 0 0 0 RoutePending) config_routes) /\
  get_route_for_truck 1 (update_route_status 1 initial_store) =
    Some (0%nat, route_with_status (route_status_of (get_zones_for_truck 1 initial_store))
                   (hd (mkRoute 0 [] 0 0 0 RoutePending) config_routes)).
Proof.
  assert (H : get_route_for_truck 1 initial_store =
              Some (0%nat, hd (mkRoute 0 [] 0 0 0 RoutePending) config_routes))
    by reflexivity.
  split; [exact H|].
  exact (proj1 (route_status_derivation 1 initial_store 0 _ H)).
Defined.

(** ** C5: how a full-route simulation starts *)

Lemma get_route_init (t t' : Z) (r : bool) (st : Store) :
  get_route_for_truck t (init_truck_state_if_needed t' r st) = get_route_for_truck t st.
Proof.
  unfold get_route_for_truck. rewrite (proj1 (init_if_needed_routes t' r st)). reflexivity.
Qed.

(** C5 fails: two [POST /simulate {"truckId": 1}] in a row; the second walk
    starts from the battery the first one left, not from a full battery. *)
Lemma simulate_twice_not_full_battery :
  let st1 := snd (simulate_truck_full_route flat_km 1 false initial_store) in
  match fst (simulate_truck_full_route flat_km 1 false st1) with
  | SimOk _ _ _ _ (e :: _) =>
      ~ (e_batteryKWhBefore e == MAX_BATTERY_KWH)%Q /\ (e_batteryKWhBefore e < MAX_BATTERY_KWH)%Q
  | _ => False
  end.
Proof. vm_compute. split; [discriminate | reflexivity]. Qed.

(** C5 (as the code does it).  For a truck with a route, the simulation
    fails when [nodeSequence] does not start and end with the depot;
    otherwise it walks the sequence from the twin [walk_start_state x],
    where [x] is the twin after [init_truck_state_if_needed truck_id reset]
    (a fresh twin when [reset] is true or the truck has no twin yet, the
    existing twin otherwise): the
    location is set to the depot and the status to [COLLECTING], while
    battery, distance, energy and load are carried over from [x]. *)
Theorem simulate_start_state (haversine_km : Q * Q -> Q * Q -> Q)
  (truck_id : Z) (reset : bool) (st : Store) (i : nat) (route : Route) :
  get_route_for_truck truck_id st = Some (i, route) ->
  let st1 := init_truck_state_if_needed truck_id reset st in
  let x := ts_get truck_id st1 in
  let st2 := ts_set truck_id (walk_start_state x) st1 in
  (has_depot_ends (nodeSequence route) = false ->
     simulate_truck_full_route haversine_km truck_id reset st = (SimErr SimBadDepot, st1)) /\
  (forall n0 rest, nodeSequence route = n0 :: rest ->
     has_depot_ends (nodeSequence route) = true ->
     let '(st3, tl) := walk haversine_km truck_id (zone_by_bin truck_id st2) 0 n0 rest st2 in
     snd (simulate_truck_full_route haversine_km truck_id reset st) = finalize_status truck_id st3 /\
     exists fs ro zs,
       fst (simulate_truck_full_route haversine_km truck_id reset st) = SimOk truck_id fs ro zs tl) /\
  currentLocation (walk_start_state x) = DEPOT_NAME /\
  t_status (walk_start_state x) = COLLECTING /\
  batteryKWh (walk_start_state x) = batteryKWh x /\
  cumDistanceKm (walk_start_state x) = cumDistanceKm x /\
  cumEnergyKWh (walk_start_state x) = cumEnergyKWh x /\
  cumCollectedWeightKg (walk_start_state x) = cumCollectedWeightKg x /\
  (reset = true -> x = init_truck_state truck_id) /\
  (forall y, reset = false -> ts_lookup truck_id (truck_state st) = Some y -> x = y) /\
  (ts_lookup truck_id (truck_state st) = None -> x = init_truck_state truck_id).
Proof.
  intros Hr st1 x st2.
  split; [|split; [|repeat split]].
  - intro Hd. unfold simulate_truck_full_route. fold st1.
    unfold st1. rewrite get_route_init, Hr. fold st1. rewrite Hd. reflexivity.
  - intros n0 rest Hn Hd. unfold simulate_truck_full_route. fold st1.
    unfold st1. rewrite get_route_init, Hr. fold st1. rewrite Hd. simpl negb. cbv iota.
    rewrite Hn. fold x. fold st2.
    destruct (walk haversine_km truck_id (zone_by_bin truck_id st2) 0 n0 rest st2) as [st3 tl].
    split; [reflexivity|]. do 3 eexists. reflexivity.
  - intro Hres. subst reset. unfold x, st1, init_truck_state_if_needed. simpl.
    apply ts_get_set.
  - intros y Hres Hy. subst reset. unfold x, st1.
    rewrite init_if_needed_present by congruence.
    unfold ts_get. rewrite Hy. reflexivity.
  - intro Hn. unfold x, st1, init_truck_state_if_needed. rewrite Hn, orb_true_r.
    apply ts_get_set.
Qed.

Lemma simulate_start_state_witness :
  get_route_for_truck 1 initial_store = Some (0%nat, hd (mkRoute 0 [] 0 0 0 RoutePending) config_routes) /\
  currentLocation (walk_start_state (ts_get 1 (init_truck_state_if_needed 1 false initial_store)))
    = DEPOT_NAME.
Proof.
  assert (H : get_route_for_truck 1 initial_store =
              Some (0%nat, hd (mkRoute 0 [] 0 0 0 RoutePending) config_routes))
    by reflexivity.
  split; [exact H|].
  exact (proj1 (proj2 (proj2 (simulate_start_state flat_km 1 false initial_store 0 _ H)))).
Defined.


Lemma confirm_zone_capacity_frame_witness :
  exists w, fst (confirm_zone flat_km 1 101 heavy_store) = ErrCapacity w /\
    t_status (ts_get 1 (snd (confirm_zone flat_km 1 101 heavy_store))) = CAPACITY_RETURN.
Proof.
  eexists. split; [vm_compute; reflexivity|].
  exact (proj1 (proj2 (proj2 (proj2
           (confirm_zone_capacity_frame flat_km 1 101 heavy_store _ eq_refl))))).
Defined.

(** ** C7: battery emergency in the full-route walk *)

Section WalkFacts.

Variable haversine_km : Q * Q -> Q * Q -> Q.

Lemma walk_battery_step (truck_id : Z) (zbb : list (Z * nat)) (step : Z)
  (src dst : string) (rest : list string) (st : Store) :
  let s := ts_get truck_id st in
  let d := calculate_distance_km haversine_km src dst in
  let e := calculate_energy_kwh d (cumCollectedWeightKg s) in
  (batteryKWh s - e < MIN_BATTERY_KWH)%Q ->
  walk haversine_km truck_id zbb step src (dst :: rest) st =
    (ts_set truck_id (ts_with_status EMERGENCY_RETURN s) st,
     [mkEntry truck_id step src dst d e BATTERY_EMERGENCY_RETURN
        (batteryKWh s) (batteryKWh s) (cumCollectedWeightKg s) None None]).
Proof.
  intros s d e H. simpl. fold s d e.
  apply q_lt_true in H. rewrite H. reflexivity.
Qed.

Lemma walk_emergency_last (truck_id : Z) (zbb : list (Z * nat)) (rest : list string) :
  forall step src st st' tl en,
  walk haversine_km truck_id zbb step src rest st = (st', tl) ->
  In en tl -> e_event en = BATTERY_EMERGENCY_RETURN ->
  (exists pre, tl = (pre ++ [en])%list) /\
  t_status (ts_get truck_id st') = EMERGENCY_RETURN /\
  e_batteryKWhBefore en = e_batteryKWhAfter en.
Proof.
  induction rest as [|dst rest IH]; intros step src st st' tl en Hw Hin Hev.
  - simpl in Hw. inversion Hw; subst. contradiction.
  - simpl in Hw.
    destruct (q_lt _ MIN_BATTERY_KWH).
    { inversion Hw; subst. destruct Hin as [<-|[]].
      split; [exists []; reflexivity|]. split; [|reflexivity].
      rewrite ts_get_set. reflexivity. }
    destruct (collect_target _ _ _) as [[zi z]|].
    + destruct (q_lt MAX_LOAD_KG _).
      { inversion Hw; subst. destruct Hin as [<-|[]]. discriminate. }
      destruct (walk _ _ _ _ _ rest _) as [st4 tl4] eqn:Ew.
      inversion Hw; subst. destruct Hin as [<-|Hin]; [discriminate|].
      destruct (IH _ _ _ _ _ en Ew Hin Hev) as [[pre ->] Hr].
      split; [|exact Hr]. eexists (_ :: pre). reflexivity.
    + destruct (walk _ _ _ _ _ rest _) as [st4 tl4] eqn:Ew.
      inversion Hw; subst. destruct Hin as [<-|Hin]; [discriminate|].
      destruct (IH _ _ _ _ _ en Ew Hin Hev) as [[pre ->] Hr].
      split; [|exact Hr]. eexists (_ :: pre). reflexivity.
Qed.

End WalkFacts.

(** C7.  When a prospective segment would drop the battery below
    [MIN_BATTERY_KWH], the walk records one [BATTERY_EMERGENCY_RETURN]
    entry with equal battery before and after, charges nothing, sets the
    twin's status to [EMERGENCY_RETURN] and stops; a simulation whose route
    is valid always returns a result (never an error), and when its
    timeline holds an emergency entry that entry is the last one and the
    final twin's status is [EMERGENCY_RETURN]. *)
Theorem simulate_battery_emergency (haversine_km : Q * Q -> Q * Q -> Q)
  (truck_id : Z) (reset : bool) (st : Store) :
  (forall zbb step src dst rest st0,
     let s := ts_get truck_id st0 in
     let d := calculate_distance_km haversine_km src dst in
     let e := calculate_energy_kwh d (cumCollectedWeightKg s) in
     (batteryKWh s - e < MIN_BATTERY_KWH)%Q ->
     walk haversine_km truck_id zbb step src (dst :: rest) st0 =
       (ts_set truck_id (ts_with_status EMERGENCY_RETURN s) st0,
        [mkEntry truck_id step src dst d e BATTERY_EMERGENCY_RETURN
           (batteryKWh s) (batteryKWh s) (cumCollectedWeightKg s) None None])) /\
  (forall i route,
     get_route_for_truck truck_id st = Some (i, route) ->
     has_depot_ends (nodeSequence route) = true ->
     exists fs ro zs tl,
       fst (simulate_truck_full_route haversine_km truck_id reset st) =
         SimOk truck_id fs ro zs tl) /\
  (forall t' fs ro zs tl en,
     fst (simulate_truck_full_route haversine_km truck_id reset st) = SimOk t' fs ro zs tl ->
     In en tl -> e_event en = BATTERY_EMERGENCY_RETURN ->
     (exists pre, tl = (pre ++ [en])%list) /\
     t_status fs = EMERGENCY_RETURN /\
     e_batteryKWhBefore en = e_batteryKWhAfter en).
Proof.
  split; [|split].
  - intros. apply walk_battery_step. assumption.
  - intros i route Hr Hd.
    destruct (nodeSequence route) as [|n0 rest] eqn:Hn; [discriminate|].
    rewrite <- Hn in Hd.
    pose proof (proj1 (proj2 (simulate_start_state haversine_km truck_id reset st i route Hr))
                  n0 rest Hn Hd) as H.
    cbv zeta in H.
    destruct (walk _ _ _ _ _ _ _) as [st3 tl]. destruct H as [_ [fs [ro [zs H]]]].
    exists fs, ro, zs, tl. exact H.
  - intros t' fs ro zs tl en Hs Hin Hev.
    unfold simulate_truck_full_route in Hs. cbv zeta in Hs.
    split_matches_in Hs; try discriminate.
    inversion Hs; subst; clear Hs.
    match goal with Ew : walk _ _ _ _ _ _ _ = (_, _) |- _ =>
      destruct (walk_emergency_last _ _ _ _ _ _ _ _ _ en Ew Hin Hev) as [Hpre [Hst Hb]] end.
    split; [exact Hpre|]. split; [|exact Hb].
    unfold finalize_status. rewrite Hst. exact Hst.
Qed.

(** A distance provider under which the first segment already breaks the
    battery floor. *)
Definition far_km (c1 c2 : Q * Q) : Q := 100 # 1.

Lemma simulate_battery_emergency_witness :
  (batteryKWh (ts_get 1 (init_truck_state_if_needed 1 false initial_store))
   - calculate_energy_kwh (calculate_distance_km far_km "Parking" "61")
       (cumCollectedWeightKg (ts_get 1 (init_truck_state_if_needed 1 false initial_store)))
   < MIN_BATTERY_KWH)%Q /\
  map e_event (snd (walk far_km 1 [] 0 "Parking" ["61"]
                       (init_truck_state_if_needed 1 false initial_store)))
    = [BATTERY_EMERGENCY_RETURN].
Proof.
  assert (H : (batteryKWh (ts_get 1 (init_truck_state_if_needed 1 false initial_store))
   - calculate_energy_kwh (calculate_distance_km far_km "Parking" "61")
       (cumCollectedWeightKg (ts_get 1 (init_truck_state_if_needed 1 false initial_store)))
   < MIN_BATTERY_KWH)%Q) by (vm_compute; reflexivity).
  split; [exact H|].
  rewrite (proj1 (simulate_battery_emergency far_km 1 false initial_store)
             [] 0 "Parking" "61" [] _ H).
  reflexivity.
Defined.

(** ** C8: reset *)

(** The registries with every status erased: what no handler but [reset]
    changes. *)
Definition zshape (zs : list Zone) : list Zone := map (zone_with_status ZonePending) zs.
Definition rshape (rs : list Route) : list Route := map (route_with_status RoutePending) rs.

Definition same_shape (st st' : Store) : Prop :=
  zshape (zones st) = zshape (zones st') /\ rshape (routes st) = rshape (routes st').

Lemma same_shape_refl (st : Store) : same_shape st st.
Proof. split; reflexivity. Qed.

Lemma same_shape_trans (a b c : Store) :
  same_shape a b -> same_shape b c -> same_shape a c.
Proof. intros [H1 H2] [H3 H4]. split; congruence. Qed.

Lemma zshape_modify (i : nat) (s : ZoneStatus) (l : list Zone) :
  zshape (modify_nth i (zone_with_status s) l) = zshape l.
Proof.
  revert i. induction l as [|z r IH]; intros [|i]; simpl; auto.
  unfold zshape in IH. rewrite IH. reflexivity.
Qed.

Lemma rshape_modify (i : nat) (s : RouteStatus) (l : list Route) :
  rshape (modify_nth i (route_with_status s) l) = rshape l.
Proof.
  revert i. induction l as [|r rs IH]; intros [|i]; simpl; auto.
  unfold rshape in IH. rewrite IH. reflexivity.
Qed.

Lemma shape_init (t : Z) (b : bool) (st : Store) :
  same_shape (init_truck_state_if_needed t b st) st.
Proof.
  destruct (init_if_needed_routes t b st) as [HR HZ]. split; congruence.
Qed.

Lemma shape_ts_set (t : Z) (s : TruckState) (st : Store) :
  same_shape (ts_set t s st) st.
Proof. split; reflexivity. Qed.

Lemma shape_update_route_status (t : Z) (st : Store) :
  same_shape (update_route_status t st) st.
Proof.
  unfold update_route_status.
  destruct (get_route_for_truck t st) as [[i r]|]; [|apply same_shape_refl].
  split; [reflexivity|]. apply rshape_modify.
Qed.

Lemma shape_set_zones_modify (i : nat) (s : ZoneStatus) (a b : Store) :
  zones a = zones b ->
  same_shape (set_zones (modify_nth i (zone_with_status s) (zones a)) b) b.
Proof. intro H. split; [simpl; rewrite H; apply zshape_modify | reflexivity]. Qed.

Lemma shape_fold_init (b : bool) (rs : list Route) :
  forall st, same_shape (fold_left (fun s r => init_truck_state_if_needed (r_truckId r) b s) rs st) st.
Proof.
  induction rs as [|r rs IH]; intro st; simpl; [apply same_shape_refl|].
  eapply same_shape_trans; [apply IH | apply shape_init].
Qed.

Ltac shape_step :=
  match goal with
  | |- same_shape ?s ?s => apply same_shape_refl
  | |- same_shape (ts_set _ _ _) _ =>
      eapply same_shape_trans; [apply shape_ts_set|]
  | |- same_shape (update_route_status _ _) _ =>
      eapply same_shape_trans; [apply shape_update_route_status|]
  | |- same_shape (set_zones (modify_nth _ (zone_with_status _) (zones ?a)) ?b) _ =>
      eapply same_shape_trans; [apply (shape_set_zones_modify _ _ a b); reflexivity|]
  | |- same_shape (init_truck_state_if_needed _ _ _) _ =>
      eapply same_shape_trans; [apply shape_init|]
  end.

Ltac shape_chain := repeat shape_step.

Lemma shape_confirm_zone (haversine_km : Q * Q -> Q * Q -> Q) (t z : Z) (st : Store) :
  same_shape (snd (confirm_zone haversine_km t z st)) st.
Proof.
  unfold confirm_zone. cbv zeta. split_matches; cbn [snd]; shape_chain.
Qed.

Lemma shape_confirm_route (t : Z) (st : Store) :
  same_shape (snd (confirm_route t st)) st.
Proof.
  unfold confirm_route. cbv zeta.
  destruct (get_route_for_truck _ _); cbn [snd]; [|shape_chain].
  eapply same_shape_trans; [apply shape_ts_set|].
  eapply same_shape_trans; [apply shape_update_route_status|].
  eapply same_shape_trans; [|apply shape_init].
  split; [|reflexivity]. cbn [zones set_zones]. unfold zshape. rewrite map_map.
  apply map_ext. intro z. destruct (Z.eqb _ _); reflexivity.
Qed.

Lemma shape_walk (haversine_km : Q * Q -> Q * Q -> Q) (t : Z) (zbb : list (Z * nat))
  (rest : list string) :
  forall step src st, same_shape (fst (walk haversine_km t zbb step src rest st)) st.
Proof.
  induction rest as [|dst rest IH]; intros step src st; cbn [walk];
    [apply same_shape_refl|].
  destruct (q_lt _ MIN_BATTERY_KWH); [cbn [fst]; shape_chain|].
  destruct (collect_target _ _ _) as [[zi z]|];
    [destruct (q_lt MAX_LOAD_KG _); [cbn [fst]; shape_chain|]|];
    (destruct (walk _ _ _ _ _ rest _) as [st4 tl] eqn:Ew; cbn [fst];
     match type of Ew with walk _ _ _ ?s ?d _ ?st0 = _ =>
       pose proof (IH s d st0) as H end;
     rewrite Ew in H; cbn [fst] in H;
     eapply same_shape_trans; [exact H|]; shape_chain).
Qed.

Lemma shape_finalize (t : Z) (st : Store) : same_shape (finalize_status t st) st.
Proof.
  unfold finalize_status. destruct (t_status _); try apply same_shape_refl;
    destruct (forallb _ _); shape_chain.
Qed.

Lemma shape_simulate (haversine_km : Q * Q -> Q * Q -> Q) (t : Z) (b : bool) (st : Store) :
  same_shape (snd (simulate_truck_full_route haversine_km t b st)) st.
Proof.
  unfold simulate_truck_full_route. cbv zeta.
  destruct (get_route_for_truck _ _) as [[i r]|]; cbn [snd]; [|shape_chain].
  destruct (negb _); cbn [snd]; [shape_chain|].
  destruct (nodeSequence r) as [|n0 rest]; cbn [snd]; [shape_chain|].
  destruct (walk _ _ _ _ _ _ _) as [st3 tl] eqn:Ew. cbn [snd].
  match type of Ew with walk ?h ?t ?z ?s ?d ?r ?st0 = _ =>
    pose proof (shape_walk h t z r s d st0) as H end.
  rewrite Ew in H. cbn [fst] in H.
  eapply same_shape_trans; [apply shape_finalize|].
  eapply same_shape_trans; [exact H|]. shape_chain.
Qed.

Lemma shape_simulate_trucks (haversine_km : Q * Q -> Q * Q -> Q) (b : bool) (tids : list Z) :
  forall st, same_shape (snd (simulate_trucks haversine_km tids b st)) st.
Proof.
  induction tids as [|t r IH]; intro st; cbn [simulate_trucks]; [apply same_shape_refl|].
  destruct (simulate_truck_full_route haversine_km t b st) as [o st1] eqn:E1.
  destruct (simulate_trucks haversine_km r b st1) as [os st2] eqn:E2. cbn [snd].
  pose proof (IH st1) as H. rewrite E2 in H.
  eapply same_shape_trans; [exact H|].
  pose proof (shape_simulate haversine_km t b st) as H'. rewrite E1 in H'. exact H'.
Qed.

Lemma shape_reset (st : Store) : same_shape (reset_all_states st) st.
Proof.
  unfold reset_all_states.
  eapply same_shape_trans; [apply shape_fold_init|].
  split; cbn [zones routes set_routes set_zones set_truck_state].
  - unfold zshape. rewrite map_map. reflexivity.
  - unfold rshape. rewrite map_map. reflexivity.
Qed.

Lemma shape_handle (haversine_km : Q * Q -> Q * Q -> Q) (req : Request) (st : Store) :
  same_shape (handle haversine_km req st) st.
Proof.
  destruct req as [| t | t | t z | t | t b |]; cbn [handle].
  - unfold get_routes, init_route_trucks. cbn [snd]. apply shape_fold_init.
  - destruct t; apply same_shape_refl.
  - unfold get_truck_state, init_route_trucks. destruct t; cbn [snd].
    + eapply same_shape_trans; [apply shape_init | apply shape_fold_init].
    + apply shape_fold_init.
  - apply shape_confirm_zone.
  - apply shape_confirm_route.
  - unfold simulate_endpoint.
    assert (Hr : same_shape (if b then reset_all_states st else st) st)
      by (destruct b; [apply shape_reset | apply same_shape_refl]).
    destruct t as [t|].
    + exact (same_shape_trans _ _ _ (shape_simulate haversine_km t false _) Hr).
    + unfold simulate_fleet.
      exact (same_shape_trans _ _ _ (shape_simulate_trucks haversine_km false _ _) Hr).
  - unfold reset_endpoint. cbn [snd]. apply shape_reset.
Qed.

Lemma shape_handle_all (haversine_km : Q * Q -> Q * Q -> Q) (reqs : list Request) :
  forall st, same_shape (handle_all haversine_km reqs st) st.
Proof.
  unfold handle_all.
  induction reqs as [|r rs IH]; intro st; cbn [fold_left]; [apply same_shape_refl|].
  eapply same_shape_trans; [apply IH | apply shape_handle].
Qed.

(** [reset_all_states] only reads what no handler changes. *)
Lemma reset_depends_on_shape (st st' : Store) :
  same_shape st st' -> reset_all_states st = reset_all_states st'.
Proof.
  intros [HZ HR]. unfold reset_all_states. cbn [zones routes set_routes set_zones set_truck_state].
  fold (zshape (zones st)) (zshape (zones st')) (rshape (routes st)) (rshape (routes st')).
  rewrite HZ, HR. reflexivity.
Qed.

(** C8.  Whatever requests ran since the module was loaded, reading the
    routes, the zones and the truck states right after [reset] gives
    exactly what the same reads give on the freshly loaded registries (all
    zones and routes [Pending], every route's truck at the depot with a full
    battery and zero totals); and resetting twice leaves the registries
    exactly as resetting once. *)
Theorem reset_round_trip (haversine_km : Q * Q -> Q * Q -> Q) (reqs : list Request) :
  read_all (reset_all_states (handle_all haversine_km reqs initial_store)) =
    read_all initial_store /\
  (forall st, reset_all_states (reset_all_states st) = reset_all_states st).
Proof.
  split.
  - rewrite (reset_depends_on_shape _ initial_store) by apply shape_handle_all.
    vm_compute. reflexivity.
  - intro st. apply reset_depends_on_shape. apply shape_reset.
Qed.

(** What those reads show. *)
Example read_all_initial :
  let '(rs, zs, ts) := read_all initial_store in
  map r_status rs = [RoutePending; RoutePending; RoutePending] /\
  forallb is_pending zs = true /\
  ts = [init_truck_state 1; init_truck_state 2; init_truck_state 3].
Proof. vm_compute. repeat split; reflexivity. Qed.

(** ** C9: trucks do not interact *)

Section Ownership.

Context {A : Type} (shape : A -> A) (owner : A -> Z).
Hypothesis owner_shape : forall x, owner (shape x) = owner x.

(** Two versions of a registry entry: same static data, and equal when the
    owning truck satisfies [P]. *)
Definition orel (P : Z -> Prop) (x y : A) : Prop :=
  shape x = shape y /\ (P (owner x) -> x = y).

Lemma orel_owner (P : Z -> Prop) (x y : A) : orel P x y -> owner x = owner y.
Proof.
  intros [Hs _]. rewrite <- (owner_shape x), <- (owner_shape y), Hs. reflexivity.
Qed.

Lemma orel_refl_all (P : Z -> Prop) (l : list A) : Forall2 (orel P) l l.
Proof. induction l; constructor; [split; auto | assumption]. Qed.

Lemma orel_trans_all (P : Z -> Prop) (l1 l2 l3 : list A) :
  Forall2 (orel P) l1 l2 -> Forall2 (orel P) l2 l3 -> Forall2 (orel P) l1 l3.
Proof.
  intro H12. revert l3. induction H12 as [|x y l1 l2 [Hs He] _ IH]; intros l3 H23;
    inversion H23 as [|y' z l2' l3' [Hs' He'] H23']; subst; constructor; auto.
  split; [congruence|]. intro Hp. pose proof (orel_owner P x y (conj Hs He)) as Ho.
  rewrite He by assumption. apply He'. rewrite <- Ho. assumption.
Qed.

Lemma orel_weaken (P Q : Z -> Prop) (l1 l2 : list A) :
  (forall c, Q c -> P c) -> Forall2 (orel P) l1 l2 -> Forall2 (orel Q) l1 l2.
Proof.
  intros HQ H. eapply Forall2_impl; [|exact H].
  intros x y [Hs He]. split; auto.
Qed.

Lemma orel_modify_frame (P : Z -> Prop) (f : A -> A) (i : nat) (l : list A) :
  (forall x, shape (f x) = shape x) ->
  (forall x, nth_error l i = Some x -> P (owner (f x)) -> f x = x) ->
  Forall2 (orel P) (modify_nth i f l) l.
Proof.
  intros Hf. revert i. induction l as [|x r IH]; intros [|i] Hx; simpl.
  - constructor.
  - constructor.
  - constructor; [|apply orel_refl_all]. split; [apply Hf|]. apply (Hx x eq_refl).
  - constructor; [split; auto|]. apply IH. exact Hx.
Qed.

Lemma orel_modify_both (P : Z -> Prop) (f : A -> A) (i : nat) (l1 l2 : list A) :
  (forall x, shape (f x) = shape x) -> (forall x, owner (f x) = owner x) ->
  Forall2 (orel P) l1 l2 -> Forall2 (orel P) (modify_nth i f l1) (modify_nth i f l2).
Proof.
  intros Hf Ho H. revert i. induction H as [|x y l1 l2 [Hs He] H IH]; intros [|i]; simpl.
  - constructor.
  - constructor.
  - constructor; [|exact H]. split; [rewrite !Hf; exact Hs|].
    rewrite Ho. intro Hp. rewrite (He Hp). reflexivity.
  - constructor; [split; auto | apply IH].
Qed.

Lemma orel_nth_error (t : Z) (l1 l2 : list A) (i : nat) :
  Forall2 (orel (fun c => c = t)) l1 l2 ->
  (forall x, nth_error l1 i = Some x -> owner x = t) ->
  nth_error l1 i = nth_error l2 i.
Proof.
  intro H. revert i. induction H as [|x y l1 l2 [Hs He] H IH]; intros [|i] Ho; simpl; auto.
  rewrite He; [reflexivity|]. apply Ho. reflexivity.
Qed.

Lemma orel_find_owner (t : Z) (l1 l2 : list A) :
  Forall2 (orel (fun c => c = t)) l1 l2 ->
  find_index (fun x => Z.eqb (owner x) t) l1 = find_index (fun x => Z.eqb (owner x) t) l2.
Proof.
  induction 1 as [|x y l1 l2 Hxy H IH]; simpl; auto.
  pose proof (orel_owner _ _ _ Hxy) as Ho. destruct Hxy as [_ He].
  rewrite <- Ho. destruct (Z.eqb_spec (owner x) t) as [Ht|Ht].
  - rewrite (He Ht). reflexivity.
  - rewrite IH. reflexivity.
Qed.

Lemma orel_filter_owner (t : Z) (l1 l2 : list A) :
  Forall2 (orel (fun c => c = t)) l1 l2 ->
  filter (fun x => Z.eqb (owner x) t) l1 = filter (fun x => Z.eqb (owner x) t) l2.
Proof.
  induction 1 as [|x y l1 l2 Hxy H IH]; simpl; auto.
  pose proof (orel_owner _ _ _ Hxy) as Ho. destruct Hxy as [_ He].
  rewrite <- Ho. destruct (Z.eqb_spec (owner x) t) as [Ht|Ht].
  - rewrite (He Ht), IH. reflexivity.
  - exact IH.
Qed.

(** Two orders of two owners' updates give the same list. *)
Lemma orel_commute (t1 t2 : Z) (a b s1 s2 s : list A) :
  t1 <> t2 ->
  Forall2 (orel (fun c => c <> t2)) a s1 -> Forall2 (orel (fun c => c = t1)) b s1 ->
  Forall2 (orel (fun c => c <> t1)) s1 s ->
  Forall2 (orel (fun c => c <> t1)) b s2 -> Forall2 (orel (fun c => c = t2)) a s2 ->
  Forall2 (orel (fun c => c <> t2)) s2 s ->
  a = b.
Proof.
  intros Hne H1. revert b s2 s.
  induction H1 as [|x1 y1 a s1 R1 H1 IH]; intros b s2 s H2 H3 H4 H5 H6.
  - inversion H2; reflexivity.
  - inversion H2 as [|xb yb b' s1' R2 H2']; subst.
    inversion H3 as [|xs ys s1'' s' R3 H3']; subst.
    inversion H5 as [|xa ya a' s2' R5 H5']; subst.
    inversion H4 as [|xb' y2 b'' s2'' R4 H4']; subst.
    inversion H6 as [|x2 ys' s2''' s'' R6 H6']; subst.
    f_equal; [|eapply IH; eassumption].
    pose proof (orel_owner _ _ _ R1) as O1. pose proof (orel_owner _ _ _ R2) as O2.
    pose proof (orel_owner _ _ _ R3) as O3. pose proof (orel_owner _ _ _ R4) as O4.
    pose proof (orel_owner _ _ _ R5) as O5.
    destruct R1 as [_ E1], R2 as [_ E2], R3 as [_ E3], R4 as [_ E4],
             R5 as [_ E5], R6 as [_ E6].
    destruct (Z.eq_dec (owner x1) t1) as [Ht1|Ht1].
    + rewrite (E1 ltac:(congruence)). symmetry. apply E2. congruence.
    + destruct (Z.eq_dec (owner x1) t2) as [Ht2|Ht2].
      * rewrite (E5 ltac:(congruence)). symmetry. apply E4. congruence.
      * rewrite (E1 ltac:(congruence)), (E3 ltac:(congruence)).
        rewrite (E4 ltac:(congruence)), (E6 ltac:(congruence)). reflexivity.
Qed.

End Ownership.

Definition zrel (P : Z -> Prop) := orel (zone_with_status ZonePending) z_truckId P.
Definition rrel (P : Z -> Prop) := orel (route_with_status RoutePending) r_truckId P.

(** [st'] differs from [st] only in what truck [t] owns. *)
Definition frame_except (t : Z) (st' st : Store) : Prop :=
  Forall2 (zrel (fun c => c <> t)) (zones st') (zones st) /\
  Forall2 (rrel (fun c => c <> t)) (routes st') (routes st) /\
  (forall k, k <> t -> ts_lookup k (truck_state st') = ts_lookup k (truck_state st)).

(** [st1] and [st2] agree on what truck [t] owns (and on all static data). *)
Definition agree_on (t : Z) (st1 st2 : Store) : Prop :=
  Forall2 (zrel (fun c => c = t)) (zones st1) (zones st2) /\
  Forall2 (rrel (fun c => c = t)) (routes st1) (routes st2) /\
  ts_lookup t (truck_state st1) = ts_lookup t (truck_state st2).

Lemma zrel_owner P x y : zrel P x y -> z_truckId x = z_truckId y.
Proof. apply (orel_owner (zone_with_status ZonePending) z_truckId (fun _ => eq_refl)). Qed.
Lemma rrel_owner P x y : rrel P x y -> r_truckId x = r_truckId y.
Proof. apply (orel_owner (route_with_status RoutePending) r_truckId (fun _ => eq_refl)). Qed.

Lemma zrel_refl_all P l : Forall2 (zrel P) l l.
Proof. apply orel_refl_all. Qed.
Lemma rrel_refl_all P l : Forall2 (rrel P) l l.
Proof. apply orel_refl_all. Qed.

Lemma frame_refl (t : Z) (st : Store) : frame_except t st st.
Proof. split; [apply zrel_refl_all | split; [apply rrel_refl_all | auto]]. Qed.

Lemma frame_trans (t : Z) (a b c : Store) :
  frame_except t a b -> frame_except t b c -> frame_except t a c.
Proof.
  intros [Z1 [R1 T1]] [Z2 [R2 T2]]. split; [|split].
  - eapply orel_trans_all; eauto; reflexivity.
  - eapply orel_trans_all; eauto; reflexivity.
  - intros k Hk. rewrite T1, T2; auto.
Qed.

Lemma frame_ts_set (t : Z) (s : TruckState) (st : Store) : frame_except t (ts_set t s st) st.
Proof.
  split; [apply zrel_refl_all | split; [apply rrel_refl_all|]].
  intros k Hk. apply ts_lookup_insert_other. auto.
Qed.

Lemma frame_init (t : Z) (r : bool) (st : Store) :
  frame_except t (init_truck_state_if_needed t r st) st.
Proof.
  unfold init_truck_state_if_needed. destruct (_ || _); [apply frame_ts_set | apply frame_refl].
Qed.

Lemma find_index_nth {A} (p : A -> bool) (l : list A) i x :
  find_index p l = Some (i, x) -> nth_error l i = Some x /\ p x = true.
Proof.
  revert i. induction l as [|y r IH]; intros i H; simpl in H; [discriminate|].
  destruct (p y) eqn:Ey; [inversion H; subst; auto|].
  destruct (find_index p r) as [[j w]|] eqn:Er; [|discriminate].
  inversion H; subst. simpl. apply IH. reflexivity.
Qed.

Lemma frame_update_route_status (t : Z) (st : Store) :
  frame_except t (update_route_status t st) st.
Proof.
  unfold update_route_status.
  destruct (get_route_for_truck t st) as [[i r]|] eqn:E; [|apply frame_refl].
  apply find_index_nth in E. destruct E as [Hn Hp]. apply Z.eqb_eq in Hp.
  split; [apply zrel_refl_all | split; [|auto]]. simpl.
  apply orel_modify_frame; try (intros; reflexivity).
  intros x Hx Hne. exfalso. apply Hne. rewrite Hn in Hx. injection Hx as <-. exact Hp.
Qed.

Definition zbb_ok (t : Z) (zbb : list (Z * nat)) (zs : list Zone) : Prop :=
  forall b i x, zbb_lookup b zbb = Some i -> nth_error zs i = Some x -> z_truckId x = t.

Lemma frame_set_zone (t : Z) (zbb : list (Z * nat)) (i : nat) (b : Z) (s : ZoneStatus)
  (a c : Store) :
  zbb_ok t zbb (zones a) -> zbb_lookup b zbb = Some i -> zones a = zones c ->
  frame_except t (set_zones (modify_nth i (zone_with_status s) (zones a)) c) c.
Proof.
  intros Hok Hb Hac. split; [|split; [apply rrel_refl_all | auto]]. simpl.
  rewrite Hac. apply orel_modify_frame; try (intros; reflexivity).
  intros x Hx Hne. rewrite <- Hac in Hx. pose proof (Hok _ _ _ Hb Hx). simpl in Hne. congruence.
Qed.

Lemma Forall2_nth_error_l {A B} (R : A -> B -> Prop) l1 l2 i x :
  Forall2 R l1 l2 -> nth_error l1 i = Some x -> exists y, nth_error l2 i = Some y /\ R x y.
Proof.
  intro H. revert i. induction H as [|a b l1 l2 Hab H IH]; intros [|i] Hx; simpl in Hx;
    try discriminate.
  - injection Hx as <-. exists b. auto.
  - apply IH. exact Hx.
Qed.

Lemma zbb_ok_transport (t : Z) (P : Z -> Prop) zbb (zs zs' : list Zone) :
  Forall2 (zrel P) zs' zs -> zbb_ok t zbb zs -> zbb_ok t zbb zs'.
Proof.
  intros H Hok b i x Hb Hx.
  destruct (Forall2_nth_error_l _ _ _ _ _ H Hx) as [y [Hy Rxy]].
  rewrite (zrel_owner _ _ _ Rxy). eapply Hok; eauto.
Qed.

Lemma zbb_lookup_in (b : Z) (l : list (Z * nat)) :
  forall acc i, fold_left (fun acc '(b', i) => if Z.eqb b' b then Some i else acc) l acc = Some i ->
  acc = Some i \/ In (b, i) l.
Proof.
  induction l as [|[b' j] r IH]; intros acc i H; simpl in H; [auto|].
  destruct (IH _ _ H) as [Ha|Ha]; [|right; right; exact Ha].
  destruct (Z.eqb_spec b' b); [subst; inversion Ha; subst; right; left; reflexivity|].
  left. exact Ha.
Qed.

Lemma zone_positions_in (t : Z) (zs : list Zone) :
  forall n b i, In (b, i) (zone_positions t n zs) ->
  exists x, nth_error zs (i - n) = Some x /\ z_truckId x = t /\ (n <= i)%nat.
Proof.
  induction zs as [|z r IH]; intros n b i H; simpl in H; [contradiction|].
  destruct (Z.eqb_spec (z_truckId z) t) as [Ht|Ht].
  - destruct H as [H|H].
    + inversion H; subst. rewrite Nat.sub_diag. exists z. auto.
    + destruct (IH _ _ _ H) as [x [Hx [Hxt Hle]]]. exists x.
      replace (i - n)%nat with (S (i - S n)) by lia. auto with arith.
  - destruct (IH _ _ _ H) as [x [Hx [Hxt Hle]]]. exists x.
    replace (i - n)%nat with (S (i - S n)) by lia. auto with arith.
Qed.

Lemma zone_by_bin_ok (t : Z) (st : Store) : zbb_ok t (zone_by_bin t st) (zones st).
Proof.
  intros b i x Hb Hx. unfold zbb_lookup in Hb.
  destruct (zbb_lookup_in _ _ _ _ Hb) as [Hn|Hin]; [discriminate|].
  destruct (zone_positions_in _ _ _ _ _ Hin) as [y [Hy [Hyt _]]].
  rewrite Nat.sub_0_r in Hy. congruence.
Qed.

Lemma agree_ts_set (t : Z) (s : TruckState) (a b : Store) :
  agree_on t a b -> agree_on t (ts_set t s a) (ts_set t s b).
Proof.
  intros [HZ [HR _]]. split; [exact HZ | split; [exact HR|]].
  rewrite !ts_lookup_set. reflexivity.
Qed.

Lemma agree_init (t : Z) (r : bool) (a b : Store) :
  agree_on t a b -> agree_on t (init_truck_state_if_needed t r a) (init_truck_state_if_needed t r b).
Proof.
  intro H. pose proof H as [_ [_ HT]].
  unfold init_truck_state_if_needed. rewrite HT.
  destruct (_ || _); [apply agree_ts_set|]; exact H.
Qed.

Lemma agree_ts_get (t : Z) (a b : Store) : agree_on t a b -> ts_get t a = ts_get t b.
Proof. intros [_ [_ HT]]. unfold ts_get. rewrite HT. reflexivity. Qed.

Lemma agree_get_route (t : Z) (a b : Store) :
  agree_on t a b -> get_route_for_truck t a = get_route_for_truck t b.
Proof.
  intros [_ [HR _]]. unfold get_route_for_truck.
  exact (orel_find_owner (route_with_status RoutePending) r_truckId (fun _ => eq_refl) t _ _ HR).
Qed.

Lemma agree_get_zones (t : Z) (a b : Store) :
  agree_on t a b -> get_zones_for_truck t a = get_zones_for_truck t b.
Proof.
  intros [HZ _]. unfold get_zones_for_truck.
  exact (orel_filter_owner (zone_with_status ZonePending) z_truckId (fun _ => eq_refl) t _ _ HZ).
Qed.

Lemma agree_update_route_status (t : Z) (a b : Store) :
  agree_on t a b -> agree_on t (update_route_status t a) (update_route_status t b).
Proof.
  intro H. unfold update_route_status.
  rewrite (agree_get_route _ _ _ H), (agree_get_zones _ _ _ H).
  destruct (get_route_for_truck t b) as [[i r]|]; [|exact H].
  destruct H as [HZ [HR HT]]. split; [exact HZ | split; [|exact HT]]. simpl.
  apply orel_modify_both; try (intros; reflexivity). exact HR.
Qed.

Lemma agree_set_zone (t : Z) (i : nat) (s : ZoneStatus) (a b : Store) :
  agree_on t a b ->
  agree_on t (set_zones (modify_nth i (zone_with_status s) (zones a)) a)
             (set_zones (modify_nth i (zone_with_status s) (zones b)) b).
Proof.
  intros [HZ [HR HT]]. split; [|split; [exact HR | exact HT]]. simpl.
  apply orel_modify_both; try (intros; reflexivity). exact HZ.
Qed.

Lemma zone_positions_shape (P : Z -> Prop) (t : Z) (l1 l2 : list Zone) :
  Forall2 (zrel P) l1 l2 -> forall n, zone_positions t n l1 = zone_positions t n l2.
Proof.
  induction 1 as [|x y l1 l2 [Hs _] H IH]; intro n; simpl; auto.
  assert (Ht : z_truckId x = z_truckId y) by exact (f_equal z_truckId Hs).
  assert (Hb : binId x = binId y) by exact (f_equal binId Hs).
  rewrite Ht, Hb, !IH. reflexivity.
Qed.

Lemma agree_zone_by_bin (t : Z) (a b : Store) :
  agree_on t a b -> zone_by_bin t a = zone_by_bin t b.
Proof. intros [HZ _]. apply (zone_positions_shape _ _ _ _ HZ). Qed.

Lemma agree_collect_target (t : Z) zbb dst (a b : Store) :
  agree_on t a b -> zbb_ok t zbb (zones a) ->
  collect_target zbb dst a = collect_target zbb dst b.
Proof.
  intros [HZ _] Hok. unfold collect_target.
  destruct (String.eqb dst DEPOT_NAME); [reflexivity|].
  destruct (parse_int dst) as [bn|]; [|reflexivity].
  destruct (zbb_lookup bn zbb) as [zi|] eqn:Hb; [|reflexivity].
  rewrite (orel_nth_error (zone_with_status ZonePending) z_truckId t _ _ zi HZ).
  - reflexivity.
  - intros x Hx. exact (Hok _ _ _ Hb Hx).
Qed.

Lemma collect_target_some (zbb : list (Z * nat)) dst (st : Store) zi z :
  collect_target zbb dst st = Some (zi, z) ->
  exists bn, zbb_lookup bn zbb = Some zi /\ nth_error (zones st) zi = Some z.
Proof.
  unfold collect_target.
  destruct (String.eqb dst DEPOT_NAME); [discriminate|].
  destruct (parse_int dst) as [bn|]; [|discriminate].
  destruct (zbb_lookup bn zbb) as [j|] eqn:Hb; [|discriminate].
  destruct (nth_error (zones st) j) as [y|] eqn:Hy; [|discriminate].
  destruct (is_pending y); [|discriminate].
  intro H. inversion H; subst. eauto.
Qed.

Lemma zbb_ok_same_shape (t : Z) zbb (a' a : Store) :
  same_shape a' a -> zbb_ok t zbb (zones a) -> zbb_ok t zbb (zones a').
Proof.
  intros [HZ _] Hok b i x Hb Hx.
  assert (H : nth_error (zshape (zones a')) i = Some (zone_with_status ZonePending x))
    by (unfold zshape; rewrite nth_error_map, Hx; reflexivity).
  rewrite HZ in H. unfold zshape in H. rewrite nth_error_map in H.
  destruct (nth_error (zones a) i) as [y|] eqn:Hy; [|discriminate].
  injection H as _ H0. rewrite <- (Hok _ _ _ Hb Hy). exact (eq_sym H0).
Qed.

Ltac frame_step :=
  match goal with
  | |- frame_except _ ?s ?s => apply frame_refl
  | |- frame_except _ (ts_set _ _ _) _ =>
      eapply frame_trans; [apply frame_ts_set|]
  | |- frame_except _ (update_route_status _ _) _ =>
      eapply frame_trans; [apply frame_update_route_status|]
  | |- frame_except _ (init_truck_state_if_needed _ _ _) _ =>
      eapply frame_trans; [apply frame_init|]
  end.

Lemma agree_set_zone_after (t : Z) (i : nat) (s : ZoneStatus) (x : TruckState) (a b : Store) :
  agree_on t a b ->
  agree_on t (set_zones (modify_nth i (zone_with_status s) (zones a)) (ts_set t x a))
             (set_zones (modify_nth i (zone_with_status s) (zones b)) (ts_set t x b)).
Proof. intro H. exact (agree_set_zone t i s _ _ (agree_ts_set t x a b H)). Qed.

Ltac agree_step :=
  first [ assumption
        | apply agree_ts_set
        | apply agree_update_route_status
        | apply agree_set_zone_after
        | apply agree_init ].

Lemma fst_let_cons {A B : Type} (p : A * list B) (e : B) :
  fst (let '(x, y) := p in (x, e :: y)) = fst p.
Proof. destruct p. reflexivity. Qed.

Lemma snd_let_cons {A B : Type} (p : A * list B) (e : B) :
  snd (let '(x, y) := p in (x, e :: y)) = e :: snd p.
Proof. destruct p. reflexivity. Qed.

Section WalkLocality.

Variable haversine_km : Q * Q -> Q * Q -> Q.

Lemma walk_frame (t : Z) (zbb : list (Z * nat)) (rest : list string) :
  forall step src st, zbb_ok t zbb (zones st) ->
  frame_except t (fst (walk haversine_km t zbb step src rest st)) st.
Proof.
  induction rest as [|dst rest IH]; intros step src st Hok; cbn [walk];
    [apply frame_refl|].
  destruct (q_lt _ MIN_BATTERY_KWH); [cbn [fst]; repeat frame_step|].
  destruct (collect_target _ _ _) as [[zi z]|] eqn:Ec.
  - destruct (collect_target_some _ _ _ _ _ Ec) as [bn [Hb _]].
    assert (Hfr : forall s2 s1,
      frame_except t (update_route_status t
         (set_zones (modify_nth zi (zone_with_status ZoneCollected) (zones (ts_set t s1 st)))
            (ts_set t s2 (ts_set t s1 st)))) st).
    { intros s2 s1. frame_step.
      eapply frame_trans; [apply (frame_set_zone t zbb zi bn); [exact Hok | exact Hb | reflexivity]|].
      repeat frame_step. }
    destruct (q_lt MAX_LOAD_KG _).
    + cbn [fst]. frame_step. apply Hfr.
    + match goal with |- context [walk ?h ?t0 ?z0 ?s0 ?d0 rest ?x] =>
        destruct (walk h t0 z0 s0 d0 rest x) as [st4 tl] eqn:Ew end. cbn [fst].
      match type of Ew with walk _ _ _ ?s ?d _ ?st0 = _ =>
        assert (Hok' : zbb_ok t zbb (zones st0));
        [eapply zbb_ok_same_shape; [|exact Hok]; shape_chain
        |pose proof (IH s d _ Hok') as H] end.
      rewrite Ew in H. cbn [fst] in H.
      eapply frame_trans; [exact H|]. frame_step. apply Hfr.
  - match goal with |- context [walk ?h ?t0 ?z0 ?s0 ?d0 rest ?x] =>
      destruct (walk h t0 z0 s0 d0 rest x) as [st4 tl] eqn:Ew end. cbn [fst].
    match type of Ew with walk _ _ _ ?s ?d _ ?st0 = _ =>
      assert (Hok' : zbb_ok t zbb (zones st0)) by exact Hok;
      pose proof (IH s d _ Hok') as H end.
    rewrite Ew in H. cbn [fst] in H.
    eapply frame_trans; [exact H|]. repeat frame_step.
Qed.

Lemma walk_agree (t : Z) (zbb : list (Z * nat)) (rest : list string) :
  forall step src a b, zbb_ok t zbb (zones a) -> agree_on t a b ->
  agree_on t (fst (walk haversine_km t zbb step src rest a))
             (fst (walk haversine_km t zbb step src rest b)) /\
  snd (walk haversine_km t zbb step src rest a) = snd (walk haversine_km t zbb step src rest b).
Proof.
  induction rest as [|dst rest IH]; intros step src a b Hok H; cbn [walk];
    [split; [exact H | reflexivity]|].
  rewrite (agree_ts_get _ _ _ H).
  destruct (q_lt _ MIN_BATTERY_KWH);
    [cbn [fst snd]; split; [apply agree_ts_set; exact H | reflexivity]|].
  match goal with |- context [collect_target zbb dst (ts_set t ?s1 a)] =>
    rewrite (agree_collect_target t zbb dst (ts_set t s1 a) (ts_set t s1 b)
               (agree_ts_set _ _ _ _ H) Hok) end.
  destruct (collect_target zbb dst _) as [[zi z]|] eqn:Ec;
    [destruct (q_lt MAX_LOAD_KG _);
     [cbn [fst snd]; split; [repeat agree_step | reflexivity] |]|].
  all: rewrite !fst_let_cons, !snd_let_cons.
  all: match goal with
       |- agree_on _ (fst (walk _ _ _ _ _ _ ?xa)) (fst (walk _ _ _ _ _ _ ?xb)) /\ _ =>
         destruct (IH (step + 1) dst xa xb) as [I1 I2];
         [ | repeat agree_step | split; [exact I1 | rewrite I2; reflexivity]]
       end.
  - eapply zbb_ok_same_shape; [|exact Hok]. shape_chain.
  - exact Hok.
Qed.

End WalkLocality.

Lemma frame_finalize (t : Z) (st : Store) : frame_except t (finalize_status t st) st.
Proof.
  unfold finalize_status.
  destruct (t_status _); try apply frame_refl;
    (destruct (forallb _ _); [repeat frame_step | apply frame_refl]).
Qed.

Lemma agree_finalize (t : Z) (a b : Store) :
  agree_on t a b -> agree_on t (finalize_status t a) (finalize_status t b).
Proof.
  intro H. unfold finalize_status.
  rewrite (agree_ts_get _ _ _ H), (agree_get_zones _ _ _ H).
  destruct (t_status _); try exact H;
    (destruct (forallb _ _); [repeat agree_step | exact H]).
Qed.

Lemma agree_sym (t : Z) (a b : Store) : agree_on t a b -> agree_on t b a.
Proof.
  intros [HZ [HR HT]]. split; [|split; [|auto]].
  - eapply Forall2_flip, Forall2_impl; [|exact HZ]. intros x y [Hs He]. split; [auto|].
    intro Hp. symmetry. apply He. pose proof (zrel_owner (fun c => c = t) _ _ (conj Hs He)). congruence.
  - eapply Forall2_flip, Forall2_impl; [|exact HR]. intros x y [Hs He]. split; [auto|].
    intro Hp. symmetry. apply He. pose proof (rrel_owner (fun c => c = t) _ _ (conj Hs He)). congruence.
Qed.

Lemma frame_agree_other (t u : Z) (a b : Store) :
  u <> t -> frame_except t a b -> agree_on u a b.
Proof.
  intros Hne [HZ [HR HT]]. split; [|split; [|apply HT; exact Hne]].
  - eapply orel_weaken; [|exact HZ]. intros c ->. exact Hne.
  - eapply orel_weaken; [|exact HR]. intros c ->. exact Hne.
Qed.

Section SimLocality.

Variable haversine_km : Q * Q -> Q * Q -> Q.

Lemma simulate_frame (t : Z) (r : bool) (st : Store) :
  frame_except t (snd (simulate_truck_full_route haversine_km t r st)) st.
Proof.
  unfold simulate_truck_full_route.
  destruct (get_route_for_truck t _) as [[i route]|]; [|apply frame_init].
  destruct (negb _); [apply frame_init|].
  destruct (nodeSequence route) as [|n0 rest]; [apply frame_init|].
  match goal with |- context [walk ?h t ?zbb 0 n0 rest ?x] =>
    pose proof (walk_frame h t zbb rest 0 n0 x (zone_by_bin_ok t x)) as Hw;
    destruct (walk h t zbb 0 n0 rest x) as [st3 tl] end.
  cbn [fst snd] in *.
  eapply frame_trans; [apply frame_finalize|].
  eapply frame_trans; [exact Hw|]. repeat frame_step.
Qed.

Lemma simulate_agree (t : Z) (r : bool) (a b : Store) :
  agree_on t a b ->
  agree_on t (snd (simulate_truck_full_route haversine_km t r a))
             (snd (simulate_truck_full_route haversine_km t r b)) /\
  fst (simulate_truck_full_route haversine_km t r a) =
  fst (simulate_truck_full_route haversine_km t r b).
Proof.
  intro H. pose proof (agree_init t r a b H) as H1.
  unfold simulate_truck_full_route.
  rewrite (agree_get_route _ _ _ H1).
  destruct (get_route_for_truck t _) as [[i route]|]; [|split; [exact H1 | reflexivity]].
  destruct (negb _); [split; [exact H1 | reflexivity]|].
  destruct (nodeSequence route) as [|n0 rest]; [split; [exact H1 | reflexivity]|].
  rewrite (agree_ts_get _ _ _ H1).
  match goal with |- context [walk haversine_km t (zone_by_bin t ?xa) 0 n0 rest ?xa] =>
    match goal with |- context [walk haversine_km t (zone_by_bin t ?xb) 0 n0 rest ?xb] =>
      assert (H2 : agree_on t xa xb) by (apply agree_ts_set; exact H1);
      rewrite (agree_zone_by_bin t xa xb H2);
      pose proof (walk_agree haversine_km t (zone_by_bin t xb) rest 0 n0 xa xb
                    ltac:(rewrite <- (agree_zone_by_bin t xa xb H2); apply zone_by_bin_ok) H2)
        as [W1 W2];
      destruct (walk haversine_km t (zone_by_bin t xb) 0 n0 rest xa) as [sa ta];
      destruct (walk haversine_km t (zone_by_bin t xb) 0 n0 rest xb) as [sb tb]
    end end.
  cbn [fst snd] in *. subst tb. cbv beta iota zeta.
  pose proof (agree_finalize t sa sb W1) as H3.
  split; [exact H3|].
  rewrite (agree_ts_get _ _ _ H3), (agree_get_route _ _ _ H3), (agree_get_zones _ _ _ H3).
  reflexivity.
Qed.

End SimLocality.

Lemma simulate_trucks_fold (haversine_km : Q * Q -> Q * Q -> Q) (tids : list Z) :
  forall (r : bool) (st : Store),
  snd (simulate_trucks haversine_km tids r st) =
    fold_left (fun s t => snd (simulate_truck_full_route haversine_km t r s)) tids st /\
  length (fst (simulate_trucks haversine_km tids r st)) = length tids.
Proof.
  induction tids as [|t tids IH]; intros r st; [split; reflexivity|].
  cbn [simulate_trucks fold_left].
  destruct (simulate_truck_full_route haversine_km t r st) as [o st1].
  destruct (IH r st1) as [IH1 IH2].
  destruct (simulate_trucks haversine_km tids r st1) as [os st2].
  cbn [fst snd length] in *. split; [exact IH1 | rewrite IH2; reflexivity].
Qed.

(** C9: the fleet simulation runs the per-truck full-route walk for the
    truck of every route, one after the other, and yields one result per
    route. For two distinct trucks, running their walks in either order
    gives the same zones, the same routes and the same twin of every truck,
    and each truck's walk returns the same result in both orders. *)
Theorem fleet_walks_independent (haversine_km : Q * Q -> Q * Q -> Q) (reset : bool)
  (st : Store) (t1 t2 : Z) :
  t1 <> t2 ->
  (snd (simulate_fleet haversine_km reset st) =
     fold_left (fun s t => snd (simulate_truck_full_route haversine_km t reset s))
       (map r_truckId (routes st)) st /\
   length (fst (simulate_fleet haversine_km reset st)) = length (routes st)) /\
  (let S1 := simulate_truck_full_route haversine_km t1 reset st in
   let S2 := simulate_truck_full_route haversine_km t2 reset st in
   let A := simulate_truck_full_route haversine_km t2 reset (snd S1) in
   let B := simulate_truck_full_route haversine_km t1 reset (snd S2) in
   zones (snd A) = zones (snd B) /\ routes (snd A) = routes (snd B) /\
   (forall k, ts_lookup k (truck_state (snd A)) = ts_lookup k (truck_state (snd B))) /\
   fst B = fst S1 /\ fst A = fst S2).
Proof.
  intro Hne. split.
  { unfold simulate_fleet. rewrite <- (length_map r_truckId (routes st)).
    apply simulate_trucks_fold. }
  cbv zeta.
  set (S1 := snd (simulate_truck_full_route haversine_km t1 reset st)).
  set (S2 := snd (simulate_truck_full_route haversine_km t2 reset st)).
  pose proof (simulate_frame haversine_km t1 reset st) as F1. fold S1 in F1.
  pose proof (simulate_frame haversine_km t2 reset st) as F2. fold S2 in F2.
  pose proof (simulate_frame haversine_km t2 reset S1) as FA.
  pose proof (simulate_frame haversine_km t1 reset S2) as FB.
  destruct (simulate_agree haversine_km t1 reset S2 st
              (frame_agree_other t2 t1 S2 st Hne F2)) as [AB R1].
  destruct (simulate_agree haversine_km t2 reset S1 st
              (frame_agree_other t1 t2 S1 st (not_eq_sym Hne) F1)) as [AA R2].
  fold S1 in AB. fold S2 in AA.
  set (A := snd (simulate_truck_full_route haversine_km t2 reset S1)) in *.
  set (B := snd (simulate_truck_full_route haversine_km t1 reset S2)) in *.
  destruct F1 as [F1Z [F1R F1T]], F2 as [F2Z [F2R F2T]],
           FA as [FAZ [FAR FAT]], FB as [FBZ [FBR FBT]],
           AB as [ABZ [ABR ABT]], AA as [AAZ [AAR AAT]].
  split; [|split; [|split; [|split; [exact R1 | exact R2]]]].
  - exact (orel_commute (zone_with_status ZonePending) z_truckId (fun _ => eq_refl)
             t1 t2 _ _ _ _ _ Hne FAZ ABZ F1Z FBZ AAZ F2Z).
  - exact (orel_commute (route_with_status RoutePending) r_truckId (fun _ => eq_refl)
             t1 t2 _ _ _ _ _ Hne FAR ABR F1R FBR AAR F2R).
  - intro k. destruct (Z.eq_dec k t1) as [->|H1].
    + rewrite (FAT t1 Hne), ABT. reflexivity.
    + destruct (Z.eq_dec k t2) as [->|H2].
      * rewrite AAT, (FBT t2 (not_eq_sym Hne)). reflexivity.
      * rewrite (FAT k H2), (F1T k H1), (FBT k H1), (F2T k H2). reflexivity.
Qed.

Lemma fleet_walks_independent_witness :
  (1 <> 2)%Z /\
  zones (snd (simulate_truck_full_route flat_km 2 false
                (snd (simulate_truck_full_route flat_km 1 false initial_store)))) =
  zones (snd (simulate_truck_full_route flat_km 1 false
                (snd (simulate_truck_full_route flat_km 2 false initial_store)))).
Proof.
  split; [lia|].
  exact (proj1 (proj2 (fleet_walks_independent flat_km false initial_store 1 2
                          ltac:(lia)))).
Defined.

(** * Further properties of the engine *)

(** ** Node names: [str(binId)] and [int(node)] *)

Lemma digit_of_char (d : N) :
  (d < 10)%N -> digit_of (ascii_of_N (48 + d)) = Some (Z.of_N d).
Proof.
  intro H.
  assert (d = 0 \/ d = 1 \/ d = 2 \/ d = 3 \/ d = 4 \/ d = 5 \/ d = 6 \/ d = 7 \/
          d = 8 \/ d = 9)%N as Hd by lia.
  repeat destruct Hd as [-> | Hd]; try reflexivity. subst. reflexivity.
Qed.

Lemma parse_int_digit_head (d : N) (r : string) :
  (d < 10)%N ->
  parse_int (String (ascii_of_N (48 + d)) r) = parse_digits (String (ascii_of_N (48 + d)) r) 0.
Proof.
  intro H.
  assert (d = 0 \/ d = 1 \/ d = 2 \/ d = 3 \/ d = 4 \/ d = 5 \/ d = 6 \/ d = 7 \/
          d = 8 \/ d = 9)%N as Hd by lia.
  repeat destruct Hd as [-> | Hd]; try (destruct r; reflexivity). subst. destruct r; reflexivity.
Qed.

Lemma digits_of_N_spec (f : nat) :
  forall (n : N) (acc : string) (a : Z), f <> O -> (n < 10 ^ N.of_nat f)%N ->
  exists d r k, (d < 10)%N /\ digits_of_N f n acc = String (ascii_of_N (48 + d)) r /\
    0 <= k /\ parse_digits (digits_of_N f n acc) a = parse_digits acc (a * 10 ^ k + Z.of_N n).
Proof.
  induction f as [|f IH]; intros n acc a Hf Hn; [congruence|].
  cbn [digits_of_N].
  assert (Hm : (n mod 10 < 10)%N) by (apply N.mod_lt; lia).
  pose proof (N.div_mod n 10 ltac:(lia)) as Hdm.
  destruct (N.eqb_spec (n / 10) 0) as [H0|H0].
  - exists (n mod 10)%N, acc, 1. repeat split; [exact Hm | lia |].
    cbn [parse_digits]. rewrite digit_of_char by exact Hm.
    f_equal. rewrite H0 in Hdm. lia.
  - assert (Hf' : f <> O).
    { intro E. subst f. cbn in Hn. apply H0. apply N.div_small. lia. }
    assert (Hn' : (n / 10 < 10 ^ N.of_nat f)%N).
    { apply N.Div0.div_lt_upper_bound. rewrite Nat2N.inj_succ, N.pow_succ_r' in Hn. lia. }
    destruct (IH (n / 10)%N (String (ascii_of_N (48 + n mod 10)) acc) a Hf' Hn')
      as [d [r [k [Hd [Hs [Hk Hp]]]]]].
    exists d, r, (k + 1). repeat split; [exact Hd | exact Hs | lia |].
    rewrite Hp. cbn [parse_digits]. rewrite digit_of_char by exact Hm.
    f_equal. rewrite Z.pow_add_r by lia.
    apply (f_equal Z.of_N) in Hdm. rewrite N2Z.inj_add, N2Z.inj_mul in Hdm. lia.
Qed.

Lemma pos_lt_pow_size (p : positive) : (Npos p < 10 ^ N.of_nat (Pos.size_nat p))%N.
Proof.
  assert (H2 : (Npos p < 2 ^ N.of_nat (Pos.size_nat p))%N).
  { induction p as [p IH|p IH|]; cbn [Pos.size_nat]; [| |reflexivity];
      rewrite Nat2N.inj_succ, N.pow_succ_r'; lia. }
  eapply N.lt_le_trans; [exact H2|]. apply N.pow_le_mono_l. lia.
Qed.

Lemma string_of_N_pos (p : positive) :
  exists d r, (d < 10)%N /\ string_of_N (Npos p) = String (ascii_of_N (48 + d)) r /\
    parse_digits (string_of_N (Npos p)) 0 = Some (Zpos p).
Proof.
  unfold string_of_N.
  assert (Hs : Pos.size_nat p <> O) by (destruct p; discriminate).
  destruct (digits_of_N_spec (Pos.size_nat p) (Npos p) "" 0 Hs (pos_lt_pow_size p))
    as [d [r [k [Hd [Hr [_ Hp]]]]]].
  exists d, r. repeat split; [exact Hd | exact Hr |]. rewrite Hp. reflexivity.
Qed.

Lemma parse_string_of_Z (z : Z) : parse_int (string_of_Z z) = Some z.
Proof.
  destruct z as [|p|p]; [reflexivity| |].
  - destruct (string_of_N_pos p) as [d [r [Hd [Hr Hp]]]].
    cbn [string_of_Z Z.to_N]. rewrite Hr, parse_int_digit_head by exact Hd.
    rewrite <- Hr. exact Hp.
  - destruct (string_of_N_pos p) as [d [r [Hd [Hr Hp]]]].
    cbn [string_of_Z]. rewrite Hr. cbn [parse_int]. rewrite <- Hr, Hp. reflexivity.
Qed.

Lemma string_of_Z_not_depot (z : Z) : String.eqb (string_of_Z z) DEPOT_NAME = false.
Proof.
  destruct (String.eqb_spec (string_of_Z z) DEPOT_NAME) as [E|E]; [|reflexivity].
  pose proof (parse_string_of_Z z) as H. rewrite E in H. discriminate.
Qed.

Lemma ordered_bins_app (l1 l2 : list string) :
  ordered_bins (l1 ++ l2) = (ordered_bins l1 ++ ordered_bins l2)%list.
Proof.
  induction l1 as [|n l1 IH]; [reflexivity|]. cbn [app ordered_bins].
  destruct (String.eqb n DEPOT_NAME); [exact IH|].
  destruct (parse_int n); [rewrite IH; reflexivity | exact IH].
Qed.

(** Extra X1.  [str] then [int] on an integer gives it back, and no
    [str(binId)] is the depot name: a bin node written by [confirm_zone]
    ([currentLocation = str(zone["binId"])]) is read back as that bin by
    [int(node)]. *)
Theorem str_int_round_trip (z : Z) :
  parse_int (string_of_Z z) = Some z /\ String.eqb (string_of_Z z) DEPOT_NAME = false.
Proof. split; [apply parse_string_of_Z | apply string_of_Z_not_depot]. Qed.

(** Extra X2.  For a route [Parking, str(b1), ..., str(bn), Parking] the
    bins [next_pending_zone_for_truck] walks through are exactly
    [b1, ..., bn], in this order. *)
Theorem ordered_bins_of_bin_nodes (bins : list Z) :
  ordered_bins (DEPOT_NAME :: map string_of_Z bins ++ [DEPOT_NAME]) = bins.
Proof.
  cbn [ordered_bins]. rewrite String.eqb_refl, ordered_bins_app.
  cbn [ordered_bins]. rewrite String.eqb_refl, app_nil_r.
  induction bins as [|b bins IH]; [reflexivity|]. cbn [map ordered_bins].
  rewrite string_of_Z_not_depot, parse_string_of_Z, IH. reflexivity.
Qed.

(** ** The [truck_state] dictionary *)

Lemma ts_lookup_insert (k k0 : Z) (v : TruckState) d :
  ts_lookup k0 (ts_insert k v d) = if Z.eqb k k0 then Some v else ts_lookup k0 d.
Proof.
  destruct (Z.eqb_spec k k0) as [->|Hne];
    [apply ts_lookup_insert_same | apply ts_lookup_insert_other; exact Hne].
Qed.

Lemma ts_insert_keys (k : Z) (v : TruckState) d :
  map fst (ts_insert k v d) =
  if existsb (fun k' => Z.eqb k' k) (map fst d) then map fst d else (map fst d ++ [k])%list.
Proof.
  induction d as [|[k' v'] d IH]; [reflexivity|]. cbn [ts_insert map fst existsb].
  destruct (Z.eqb k' k); [reflexivity|]. cbn [map fst]. rewrite IH.
  destruct (existsb _ _); reflexivity.
Qed.

(** Extra X3.  Assigning [truck_state[k] = v]: reading [k] gives [v],
    every other key reads as before, and the keys keep their order, a new
    key going last (Python dicts keep insertion order). *)
Theorem ts_insert_dict (k : Z) (v : TruckState) (d : list (Z * TruckState)) :
  ts_lookup k (ts_insert k v d) = Some v /\
  (forall k0, k0 <> k -> ts_lookup k0 (ts_insert k v d) = ts_lookup k0 d) /\
  map fst (ts_insert k v d) =
    if existsb (fun k' => Z.eqb k' k) (map fst d) then map fst d else (map fst d ++ [k])%list.
Proof.
  split; [apply ts_lookup_insert_same|split; [|apply ts_insert_keys]].
  intros k0 Hne. apply ts_lookup_insert_other. congruence.
Qed.

Lemma init_lookup (t k : Z) (r : bool) (st : Store) :
  ts_lookup k (truck_state (init_truck_state_if_needed t r st)) =
  if Z.eqb t k then
    (if r then Some (init_truck_state t)
     else match ts_lookup t (truck_state st) with
          | Some s => Some s
          | None => Some (init_truck_state t)
          end)
  else ts_lookup k (truck_state st).
Proof.
  unfold init_truck_state_if_needed.
  destruct (Z.eqb_spec t k) as [<-|Hne].
  - destruct r; cbn [orb negb].
    + apply ts_lookup_insert_same.
    + destruct (ts_lookup t (truck_state st)) eqn:E; cbn [negb]; [exact E|].
      apply ts_lookup_insert_same.
  - destruct (_ || _); [|reflexivity]. apply ts_lookup_insert_other. exact Hne.
Qed.

(** Extra X4.  After [init_truck_state_if_needed(t, reset)] truck [t] has a
    twin, a fresh one when [reset] is true; an existing twin is kept when
    [reset] is false, so a second call without [reset] changes nothing; no
    other truck's twin, zone or route is touched. *)
Theorem init_truck_state_if_needed_spec (t : Z) (r : bool) (st : Store) :
  let st1 := init_truck_state_if_needed t r st in
  (exists s, ts_lookup t (truck_state st1) = Some s) /\
  (r = true -> ts_lookup t (truck_state st1) = Some (init_truck_state t)) /\
  (forall s, r = false -> ts_lookup t (truck_state st) = Some s -> st1 = st) /\
  init_truck_state_if_needed t false st1 = st1 /\
  (forall k, k <> t -> ts_lookup k (truck_state st1) = ts_lookup k (truck_state st)) /\
  routes st1 = routes st /\ zones st1 = zones st.
Proof.
  cbv zeta.
  destruct (init_if_needed_routes t r st) as [HR HZ].
  assert (Hl : forall k, ts_lookup k (truck_state (init_truck_state_if_needed t r st)) =
    if Z.eqb t k then
      (if r then Some (init_truck_state t)
       else match ts_lookup t (truck_state st) with
            | Some s => Some s | None => Some (init_truck_state t) end)
    else ts_lookup k (truck_state st)) by (intro; apply init_lookup).
  assert (Hex : exists s, ts_lookup t (truck_state (init_truck_state_if_needed t r st)) = Some s).
  { rewrite Hl, Z.eqb_refl. destruct r; [eauto|].
    destruct (ts_lookup t _); eauto. }
  split; [exact Hex|]. split; [|split; [|split; [|split; [|split]]]].
  - intros ->. rewrite Hl, Z.eqb_refl. reflexivity.
  - intros s -> Hs. apply init_if_needed_present. congruence.
  - apply init_if_needed_present. destruct Hex as [s Hs]. congruence.
  - intros k Hk. rewrite Hl. destruct (Z.eqb_spec t k); [congruence | reflexivity].
  - exact HR.
  - exact HZ.
Qed.

Lemma existsb_map_comp {A B} (f : A -> B) (p : B -> bool) (l : list A) :
  existsb p (map f l) = existsb (fun x => p (f x)) l.
Proof. induction l as [|x l IH]; cbn [map existsb]; [reflexivity | rewrite IH; reflexivity]. Qed.

Lemma fold_init_false_lookup (k : Z) (rs : list Route) :
  forall st, ts_lookup k (truck_state
    (fold_left (fun s r => init_truck_state_if_needed (r_truckId r) false s) rs st)) =
  match ts_lookup k (truck_state st) with
  | Some s => Some s
  | None => if existsb (fun r => Z.eqb (r_truckId r) k) rs then Some (init_truck_state k) else None
  end.
Proof.
  induction rs as [|r rs IH]; intro st; cbn [fold_left existsb].
  - destruct (ts_lookup k _); reflexivity.
  - rewrite IH, init_lookup.
    destruct (Z.eqb_spec (r_truckId r) k) as [<-|Hne]; cbn [orb].
    + destruct (ts_lookup (r_truckId r) (truck_state st)); reflexivity.
    + reflexivity.
Qed.

Lemma fold_init_true_lookup (k : Z) (rs : list Route) :
  forall st, ts_lookup k (truck_state
    (fold_left (fun s r => init_truck_state_if_needed (r_truckId r) true s) rs st)) =
  if existsb (fun r => Z.eqb (r_truckId r) k) rs then Some (init_truck_state k)
  else ts_lookup k (truck_state st).
Proof.
  induction rs as [|r rs IH]; intro st; cbn [fold_left existsb]; [reflexivity|].
  rewrite IH, init_lookup.
  destruct (Z.eqb_spec (r_truckId r) k) as [<-|Hne]; cbn [orb];
    destruct (existsb _ rs); reflexivity.
Qed.

Lemma fold_init_routes (b : bool) (rs : list Route) :
  forall st,
  routes (fold_left (fun s r => init_truck_state_if_needed (r_truckId r) b s) rs st) = routes st /\
  zones (fold_left (fun s r => init_truck_state_if_needed (r_truckId r) b s) rs st) = zones st.
Proof.
  induction rs as [|r rs IH]; intro st; cbn [fold_left]; [split; reflexivity|].
  destruct (IH (init_truck_state_if_needed (r_truckId r) b st)) as [H1 H2].
  destruct (init_if_needed_routes (r_truckId r) b st) as [H3 H4]. split; congruence.
Qed.

(** Extra X5.  [GET /routes] answers the routes as they are and gives a
    fresh twin to every route's truck that has none; existing twins, zones
    and routes are left unchanged. *)
Theorem get_routes_twins (st : Store) :
  let '(rs, st1) := get_routes st in
  rs = routes st /\ routes st1 = routes st /\ zones st1 = zones st /\
  forall k, ts_lookup k (truck_state st1) =
    match ts_lookup k (truck_state st) with
    | Some s => Some s
    | None => if existsb (fun r => Z.eqb (r_truckId r) k) (routes st)
              then Some (init_truck_state k) else None
    end.
Proof.
  unfold get_routes, init_route_trucks.
  destruct (fold_init_routes false (routes st) st) as [HR HZ].
  split; [exact HR|]. split; [exact HR|]. split; [exact HZ|].
  intro k. apply fold_init_false_lookup.
Qed.

(** Extra X6.  After [reset_all_states()] every zone and route is
    [Pending] with its other fields unchanged, and the twins are exactly a
    fresh twin for each truck id of [routes]: no twin of any other truck
    survives. *)
Theorem reset_all_states_spec (st : Store) :
  let st' := reset_all_states st in
  zones st' = map (zone_with_status ZonePending) (zones st) /\
  routes st' = map (route_with_status RoutePending) (routes st) /\
  forall k, ts_lookup k (truck_state st') =
    if existsb (fun r => Z.eqb (r_truckId r) k) (routes st)
    then Some (init_truck_state k) else None.
Proof.
  cbv zeta. unfold reset_all_states.
  match goal with |- context [fold_left ?f ?rs ?s0] =>
    destruct (fold_init_routes true rs s0) as [HR HZ] end.
  rewrite HR, HZ. split; [reflexivity|]. split; [reflexivity|].
  intro k. rewrite fold_init_true_lookup. cbn [routes set_routes set_zones set_truck_state].
  rewrite existsb_map_comp. reflexivity.
Qed.

(** ** [update_route_status] *)

Lemma modify_nth_twice {A} (f : A -> A) (i : nat) (l : list A) :
  (forall x, f (f x) = f x) -> modify_nth i f (modify_nth i f l) = modify_nth i f l.
Proof.
  intro Hf. revert i. induction l as [|x l IH]; intros [|i]; cbn [modify_nth];
    [reflexivity | reflexivity | rewrite Hf; reflexivity | rewrite IH; reflexivity].
Qed.

Lemma nth_error_modify_other {A} (f : A -> A) (i j : nat) (l : list A) :
  i <> j -> nth_error (modify_nth i f l) j = nth_error l j.
Proof.
  revert i j. induction l as [|x l IH]; intros [|i] [|j] Hne; cbn [modify_nth nth_error];
    try reflexivity; try congruence. apply IH. congruence.
Qed.

(** Extra X7.  [update_route_status(t)] is idempotent; it changes neither
    the zones nor the twins, and no route but the first route of truck [t]
    (other routes of [t] included). *)
Theorem update_route_status_idempotent (t : Z) (st : Store) :
  let st' := update_route_status t st in
  update_route_status t st' = st' /\
  zones st' = zones st /\ truck_state st' = truck_state st /\
  forall j, (forall i r, get_route_for_truck t st = Some (i, r) -> i <> j) ->
    nth_error (routes st') j = nth_error (routes st) j.
Proof.
  cbv zeta.
  destruct (get_route_for_truck t st) as [[i r]|] eqn:E.
  - assert (Hu : update_route_status t st =
      set_routes (modify_nth i (route_with_status (route_status_of (get_zones_for_truck t st)))
                   (routes st)) st) by (unfold update_route_status; rewrite E; reflexivity).
    rewrite Hu. cbn [zones truck_state routes set_routes].
    split; [|split; [reflexivity|split; [reflexivity|]]].
    + unfold update_route_status at 1. unfold get_route_for_truck at 1. cbn [routes set_routes].
      unfold get_route_for_truck in E. rewrite (find_index_modify _ _ _ _ _ E) by reflexivity.
      unfold get_zones_for_truck. cbn [zones set_routes routes truck_state].
      rewrite modify_nth_twice by reflexivity. reflexivity.
    + intros j Hj. apply nth_error_modify_other. exact (Hj i r eq_refl).
  - assert (Hu : update_route_status t st = st)
      by (unfold update_route_status; rewrite E; reflexivity).
    rewrite !Hu. repeat split; reflexivity.
Qed.

(** ** [next_pending_zone_for_truck] *)

Lemma find_index_in {A} (p : A -> bool) (l : list A) i x :
  find_index p l = Some (i, x) -> In x l /\ p x = true.
Proof.
  intro H. apply find_index_nth in H. destruct H as [Hn Hp].
  split; [eapply nth_error_In; exact Hn | exact Hp].
Qed.

Lemma first_pending_at_spec (bins : list Z) (tz : list Zone) (z : Zone) :
  first_pending_at bins tz = Some z ->
  In z tz /\ is_pending z = true /\
  exists pre post, bins = (pre ++ binId z :: post)%list /\
    forall z', In z' tz -> is_pending z' = true -> ~ In (binId z') pre.
Proof.
  induction bins as [|b bins IH]; cbn [first_pending_at]; [discriminate|].
  destruct (find_index _ tz) as [[j y]|] eqn:E.
  - intro H. injection H as <-. apply find_index_in in E. destruct E as [Hin Hp].
    apply andb_true_iff in Hp. destruct Hp as [Hb Hp]. apply Z.eqb_eq in Hb.
    split; [exact Hin|]. split; [exact Hp|].
    exists [], bins. split; [rewrite Hb; reflexivity | intros; tauto].
  - intro H. destruct (IH H) as [Hin [Hp [pre [post [Hbins Hpre]]]]].
    split; [exact Hin|]. split; [exact Hp|].
    exists (b :: pre), post. split; [rewrite Hbins; reflexivity|].
    intros z' Hz' Hp' [Hb|Hb]; [|exact (Hpre z' Hz' Hp' Hb)].
    pose proof (find_index_none _ _ E z' Hz') as Hf. cbn beta in Hf.
    rewrite Hb, Z.eqb_refl, Hp' in Hf. discriminate.
Qed.

(** Extra X8.  The zone [next_pending_zone_for_truck(t)] returns is a
    pending zone of truck [t] whose bin is on [t]'s route, and no pending
    zone of [t] has its bin earlier on the route (the depot and non-integer
    nodes being skipped). *)
Theorem next_pending_zone_sound (t : Z) (st : Store) (z : Zone) :
  next_pending_zone_for_truck t st = Some z ->
  In z (zones st) /\ z_truckId z = t /\ z_status z = ZonePending /\
  exists i route pre post,
    get_route_for_truck t st = Some (i, route) /\
    ordered_bins (nodeSequence route) = (pre ++ binId z :: post)%list /\
    forall z', In z' (zones st) -> z_truckId z' = t -> z_status z' = ZonePending ->
      ~ In (binId z') pre.
Proof.
  unfold next_pending_zone_for_truck.
  destruct (get_route_for_truck t st) as [[i route]|]; [|discriminate].
  intro H. destruct (first_pending_at_spec _ _ _ H) as [Hin [Hp [pre [post [Hb Hpre]]]]].
  unfold get_zones_for_truck in Hin. apply filter_In in Hin. destruct Hin as [Hin Ht].
  apply Z.eqb_eq in Ht.
  split; [exact Hin|]. split; [exact Ht|].
  split; [unfold is_pending in Hp; destruct (z_status z); congruence|].
  exists i, route, pre, post. split; [reflexivity|]. split; [exact Hb|].
  intros z' Hz' Ht' Hp'. apply Hpre.
  - unfold get_zones_for_truck. apply filter_In. split; [exact Hz'|]. apply Z.eqb_eq. exact Ht'.
  - unfold is_pending. rewrite Hp'. reflexivity.
Qed.

Lemma next_pending_zone_sound_witness :
  next_pending_zone_for_truck 2 initial_store = Some (nth 4 config_zones (hd (mkZone 0 0 "" 0 0 0 ZonePending) config_zones)) /\
  z_truckId (nth 4 config_zones (hd (mkZone 0 0 "" 0 0 0 ZonePending) config_zones)) = 2.
Proof.
  split; [reflexivity|].
  exact (proj1 (proj2 (next_pending_zone_sound 2 initial_store _ eq_refl))).
Defined.

(** ** The twins: one per key, each carrying its own truck id *)

Definition twins_ok (st : Store) : Prop :=
  NoDup (map fst (truck_state st)) /\
  Forall (fun p => truckId (snd p) = fst p) (truck_state st).

Lemma ts_insert_keys_in (k x : Z) (v : TruckState) d :
  In x (map fst (ts_insert k v d)) -> x = k \/ In x (map fst d).
Proof.
  induction d as [|[k' v'] d IH]; cbn [ts_insert map fst In].
  - intros [H|[]]. left. symmetry. exact H.
  - destruct (Z.eqb_spec k' k); cbn [map fst In]; [tauto|].
    intros [H|H]; [tauto|]. destruct (IH H); tauto.
Qed.

Lemma twins_ok_insert (k : Z) (v : TruckState) d :
  truckId v = k ->
  NoDup (map fst d) /\ Forall (fun p => truckId (snd p) = fst p) d ->
  NoDup (map fst (ts_insert k v d)) /\ Forall (fun p => truckId (snd p) = fst p) (ts_insert k v d).
Proof.
  intros Hv. induction d as [|[k' v'] d IH]; intros [Hn Hf]; cbn [ts_insert].
  - split; [constructor; [intros []|constructor] | constructor; [exact Hv | constructor]].
  - inversion Hn as [|? ? Hk Hn']. inversion Hf as [|? ? Hv' Hf'].
    destruct (Z.eqb_spec k' k) as [->|Hne].
    + split; [exact Hn | constructor; [exact Hv | exact Hf']].
    + destruct (IH (conj Hn' Hf')) as [IH1 IH2]. split.
      * cbn [map fst]. constructor; [|exact IH1].
        intro Hin. destruct (ts_insert_keys_in _ _ _ _ Hin); [congruence | contradiction].
      * constructor; [exact Hv' | exact IH2].
Qed.

Lemma twins_ok_ts_set (t : Z) (s : TruckState) (st : Store) :
  truckId s = t -> twins_ok st -> twins_ok (ts_set t s st).
Proof. intros Hs H. apply twins_ok_insert; assumption. Qed.

Lemma twins_ok_init (t : Z) (r : bool) (st : Store) :
  twins_ok st -> twins_ok (init_truck_state_if_needed t r st).
Proof.
  intro H. unfold init_truck_state_if_needed.
  destruct (_ || _); [apply twins_ok_insert; [reflexivity | exact H] | exact H].
Qed.

Lemma ts_lookup_in (k : Z) (s : TruckState) d :
  ts_lookup k d = Some s -> In (k, s) d.
Proof.
  induction d as [|[k' v'] d IH]; cbn [ts_lookup]; [discriminate|].
  destruct (Z.eqb_spec k' k) as [->|]; [intro H; injection H as ->; left; reflexivity|].
  intro H. right. apply IH. exact H.
Qed.

Lemma ts_get_truckId (t : Z) (st : Store) : twins_ok st -> truckId (ts_get t st) = t.
Proof.
  intros [_ Hf]. unfold ts_get.
  destruct (ts_lookup t (truck_state st)) as [s|] eqn:E; [|reflexivity].
  apply ts_lookup_in in E. rewrite Forall_forall in Hf. exact (Hf _ E).
Qed.

Lemma twins_ok_same_twins (st' st : Store) :
  truck_state st' = truck_state st -> twins_ok st -> twins_ok st'.
Proof. intros E H. unfold twins_ok. rewrite E. exact H. Qed.

Lemma twins_ok_update_route_status (t : Z) (st : Store) :
  twins_ok st -> twins_ok (update_route_status t st).
Proof.
  apply twins_ok_same_twins. unfold update_route_status.
  destruct (get_route_for_truck t st) as [[? ?]|]; reflexivity.
Qed.

Ltac twins_step :=
  match goal with
  | H : twins_ok ?s |- twins_ok ?s => exact H
  | |- twins_ok (ts_set _ _ _) => apply twins_ok_ts_set
  | |- twins_ok (update_route_status _ _) => apply twins_ok_update_route_status
  | |- twins_ok (init_truck_state_if_needed _ _ _) => apply twins_ok_init
  | |- twins_ok (set_zones _ ?s) => apply (twins_ok_same_twins _ s eq_refl)
  | |- truckId _ = _ => cbn [truckId ts_with_status ts_with_location ts_travel ts_add_weight
                              update_kpis walk_start_state init_truck_state];
                        first [reflexivity | apply ts_get_truckId]
  end.

Ltac twins_chain := repeat twins_step.

Section TwinInvariant.

Variable haversine_km : Q * Q -> Q * Q -> Q.

Lemma twins_ok_walk (t : Z) (zbb : list (Z * nat)) (rest : list string) :
  forall step src st, twins_ok st ->
  twins_ok (fst (walk haversine_km t zbb step src rest st)).
Proof.
  induction rest as [|dst rest IH]; intros step src st H; cbn [walk]; [exact H|].
  destruct (q_lt _ MIN_BATTERY_KWH); [cbn [fst]; twins_chain|].
  destruct (collect_target _ _ _) as [[zi z]|];
    [destruct (q_lt MAX_LOAD_KG _); [cbn [fst]; twins_chain|]|];
    rewrite fst_let_cons; apply IH; twins_chain.
Qed.

Lemma twins_ok_finalize (t : Z) (st : Store) : twins_ok st -> twins_ok (finalize_status t st).
Proof.
  intro H. unfold finalize_status.
  destruct (t_status _); try exact H; destruct (forallb _ _); twins_chain.
Qed.

Lemma twins_ok_simulate (t : Z) (r : bool) (st : Store) :
  twins_ok st -> twins_ok (snd (simulate_truck_full_route haversine_km t r st)).
Proof.
  intro H. unfold simulate_truck_full_route.
  assert (H1 : twins_ok (init_truck_state_if_needed t r st)) by (apply twins_ok_init, H).
  destruct (get_route_for_truck t _) as [[i route]|]; [|exact H1].
  destruct (negb _); [exact H1|].
  destruct (nodeSequence route) as [|n0 rest]; [exact H1|].
  match goal with |- context [walk haversine_km t ?zbb 0 n0 rest ?x] =>
    assert (H2 : twins_ok x) by twins_chain;
    pose proof (twins_ok_walk t zbb rest 0 n0 x H2) as Hw;
    destruct (walk haversine_km t zbb 0 n0 rest x) as [st3 tl] end.
  apply twins_ok_finalize. exact Hw.
Qed.

Lemma twins_ok_simulate_trucks (r : bool) (tids : list Z) :
  forall st, twins_ok st -> twins_ok (snd (simulate_trucks haversine_km tids r st)).
Proof.
  intro st. rewrite (proj1 (simulate_trucks_fold haversine_km tids r st)).
  revert st. induction tids as [|t tids IH]; intros st H; [exact H|].
  apply IH. apply twins_ok_simulate. exact H.
Qed.

Lemma twins_ok_confirm_zone (t z : Z) (st : Store) :
  twins_ok st -> twins_ok (snd (confirm_zone haversine_km t z st)).
Proof.
  intro H. assert (H1 : twins_ok (init_truck_state_if_needed t false st)) by (apply twins_ok_init, H).
  unfold confirm_zone. cbv zeta. split_matches; cbn [snd]; twins_chain.
Qed.

End TwinInvariant.

Lemma twins_ok_fold_init (b : bool) (rs : list Route) :
  forall st, twins_ok st ->
  twins_ok (fold_left (fun s r => init_truck_state_if_needed (r_truckId r) b s) rs st).
Proof.
  induction rs as [|r rs IH]; intros st H; [exact H|]. apply IH, twins_ok_init, H.
Qed.

Lemma twins_ok_reset (st : Store) : twins_ok (reset_all_states st).
Proof.
  unfold reset_all_states. apply twins_ok_fold_init. split; constructor.
Qed.

Lemma twins_ok_confirm_route (t : Z) (st : Store) :
  twins_ok st -> twins_ok (snd (confirm_route t st)).
Proof.
  intro H. assert (H1 : twins_ok (init_truck_state_if_needed t false st)) by (apply twins_ok_init, H).
  unfold confirm_route. cbv zeta.
  destruct (get_route_for_truck t _); cbn [snd]; [|exact H1].
  apply twins_ok_ts_set.
  - cbn [truckId update_kpis ts_with_status]. apply ts_get_truckId. twins_chain.
  - twins_chain.
Qed.

Lemma twins_ok_handle (haversine_km : Q * Q -> Q * Q -> Q) (req : Request) (st : Store) :
  twins_ok st -> twins_ok (handle haversine_km req st).
Proof.
  intro H. destruct req as [| t | t | t z | t | t b |]; cbn [handle].
  - apply twins_ok_fold_init, H.
  - destruct t; exact H.
  - unfold get_truck_state, init_route_trucks. destruct t; cbn [snd];
      [apply twins_ok_init|]; apply twins_ok_fold_init, H.
  - apply twins_ok_confirm_zone, H.
  - apply twins_ok_confirm_route, H.
  - unfold simulate_endpoint.
    assert (Hr : twins_ok (if b then reset_all_states st else st))
      by (destruct b; [apply twins_ok_reset | exact H]).
    destruct t as [t|]; [apply twins_ok_simulate, Hr|].
    unfold simulate_fleet. apply twins_ok_simulate_trucks, Hr.
  - apply twins_ok_reset.
Qed.

Lemma twins_ok_handle_all_aux (haversine_km : Q * Q -> Q * Q -> Q) (reqs : list Request) :
  forall st, twins_ok st -> twins_ok (handle_all haversine_km reqs st).
Proof.
  unfold handle_all. induction reqs as [|r rs IH]; intros st H; [exact H|].
  cbn [fold_left]. apply IH, twins_ok_handle, H.
Qed.

(** Extra X9.  Every request keeps the [truck_state] dictionary well
    formed: no truck id twice, and each twin's [truckId] field equal to its
    key. *)
Theorem twins_ok_handle_all (haversine_km : Q * Q -> Q * Q -> Q) (reqs : list Request)
  (st : Store) :
  twins_ok st -> twins_ok (handle_all haversine_km reqs st).
Proof. apply twins_ok_handle_all_aux. Qed.

Lemma twins_ok_handle_all_witness :
  twins_ok initial_store /\
  twins_ok (handle_all flat_km [ReqSimulate None false; ReqConfirmRoute 2; ReqReset] initial_store).
Proof.
  assert (H : twins_ok initial_store) by (split; constructor).
  split; [exact H | exact (twins_ok_handle_all flat_km _ initial_store H)].
Defined.

Lemma nodup_map_eq {A B} (f g : A -> B) (l : list A) :
  (forall x, In x l -> f x = g x) -> NoDup (map f l) -> NoDup (map g l).
Proof.
  intros H. rewrite (map_ext_in f g l H). exact (fun x => x).
Qed.

(** Extra X10.  Whatever requests ran since the module was loaded,
    [GET /truck-state] lists each truck at most once, and
    [GET /truck-state?truckId=t] answers the twin of truck [t] itself. *)
Theorem get_truck_state_one_per_truck (haversine_km : Q * Q -> Q * Q -> Q)
  (reqs : list Request) (t : Z) :
  let st := handle_all haversine_km reqs initial_store in
  NoDup (map truckId (fst (get_truck_state None st))) /\
  map truckId (fst (get_truck_state (Some t) st)) = [t].
Proof.
  cbv zeta.
  assert (H : twins_ok (handle_all haversine_km reqs initial_store))
    by (apply twins_ok_handle_all_aux; split; constructor).
  unfold get_truck_state, init_route_trucks.
  pose proof (twins_ok_fold_init false (routes (handle_all haversine_km reqs initial_store)) _ H)
    as H1.
  split.
  - cbn [fst]. rewrite map_map. destruct H1 as [Hn Hf].
    apply (nodup_map_eq fst); [|exact Hn].
    intros x Hx. rewrite Forall_forall in Hf. symmetry. exact (Hf x Hx).
  - cbn [fst map]. rewrite ts_get_truckId; [reflexivity|]. apply twins_ok_init, H1.
Qed.

(** ** Collected zones stay collected *)

(** The requests that reset the registries: [POST /reset] and
    [POST /simulate] with [reset] true. *)
Definition resets (req : Request) : bool :=
  match req with
  | ReqReset => true
  | ReqSimulate _ b => b
  | _ => false
  end.

Definition smono (st' st : Store) : Prop :=
  Forall2 (fun z' z => is_collected z = true -> is_collected z' = true) (zones st') (zones st).

Lemma zmono_refl (l : list Zone) :
  Forall2 (fun z' z => is_collected z = true -> is_collected z' = true) l l.
Proof. induction l; constructor; auto. Qed.

Lemma smono_refl (st : Store) : smono st st.
Proof. apply zmono_refl. Qed.

Lemma smono_trans (a b c : Store) : smono a b -> smono b c -> smono a c.
Proof.
  unfold smono. generalize (zones a) (zones b) (zones c). clear a b c.
  intros a b c H1. revert c. induction H1 as [|x y a b Hxy _ IH]; intros c H2;
    inversion H2; subst; constructor; auto.
Qed.

Lemma smono_same_zones (a b : Store) : zones a = zones b -> smono a b.
Proof. intro E. unfold smono. rewrite E. apply zmono_refl. Qed.

Lemma smono_ts_set (t : Z) (s : TruckState) (st : Store) : smono (ts_set t s st) st.
Proof. apply smono_same_zones. reflexivity. Qed.

Lemma smono_init (t : Z) (r : bool) (st : Store) : smono (init_truck_state_if_needed t r st) st.
Proof. apply smono_same_zones, init_if_needed_routes. Qed.

Lemma smono_update_route_status (t : Z) (st : Store) : smono (update_route_status t st) st.
Proof.
  apply smono_same_zones. unfold update_route_status.
  destruct (get_route_for_truck t st) as [[? ?]|]; reflexivity.
Qed.

Lemma smono_set_zone (i : nat) (a b : Store) :
  zones a = zones b ->
  smono (set_zones (modify_nth i (zone_with_status ZoneCollected) (zones a)) b) b.
Proof.
  intro E. unfold smono. cbn [zones set_zones]. rewrite E. generalize (zones b). clear.
  intro l. revert i. induction l as [|z l IH]; intro i.
  - destruct i; constructor.
  - destruct i as [|i]; cbn [modify_nth]; constructor.
    + intros _. reflexivity.
    + apply zmono_refl.
    + auto.
    + apply IH.
Qed.

Ltac mono_step :=
  match goal with
  | |- smono ?s ?s => apply smono_refl
  | |- smono (ts_set _ _ _) _ => eapply smono_trans; [apply smono_ts_set|]
  | |- smono (update_route_status _ _) _ =>
      eapply smono_trans; [apply smono_update_route_status|]
  | |- smono (set_zones (modify_nth _ (zone_with_status ZoneCollected) (zones ?a)) ?b) _ =>
      eapply smono_trans; [apply (smono_set_zone _ a b); reflexivity|]
  | |- smono (init_truck_state_if_needed _ _ _) _ => eapply smono_trans; [apply smono_init|]
  end.

Section Monotone.

Variable haversine_km : Q * Q -> Q * Q -> Q.

Lemma smono_walk (t : Z) (zbb : list (Z * nat)) (rest : list string) :
  forall step src st, smono (fst (walk haversine_km t zbb step src rest st)) st.
Proof.
  induction rest as [|dst rest IH]; intros step src st; cbn [walk]; [apply smono_refl|].
  destruct (q_lt _ MIN_BATTERY_KWH); [cbn [fst]; repeat mono_step|].
  destruct (collect_target _ _ _) as [[zi z]|];
    [destruct (q_lt MAX_LOAD_KG _); [cbn [fst]; repeat mono_step|]|];
    rewrite fst_let_cons; refine (smono_trans _ _ _ (IH _ _ _) _); repeat mono_step.
Qed.

Lemma smono_simulate (t : Z) (st : Store) :
  smono (snd (simulate_truck_full_route haversine_km t false st)) st.
Proof.
  unfold simulate_truck_full_route.
  destruct (get_route_for_truck t _) as [[i route]|]; [|apply smono_init].
  destruct (negb _); [apply smono_init|].
  destruct (nodeSequence route) as [|n0 rest]; [apply smono_init|].
  match goal with |- context [walk haversine_km t ?zbb 0 n0 rest ?x] =>
    pose proof (smono_walk t zbb rest 0 n0 x) as Hw;
    destruct (walk haversine_km t zbb 0 n0 rest x) as [st3 tl] end.
  cbn [fst snd] in *. refine (smono_trans _ st3 _ _ _).
  - unfold finalize_status.
    destruct (t_status _); try apply smono_refl; destruct (forallb _ _); repeat mono_step.
  - eapply smono_trans; [exact Hw|]. repeat mono_step.
Qed.

End Monotone.

Lemma smono_handle (haversine_km : Q * Q -> Q * Q -> Q) (req : Request) (st : Store) :
  resets req = false -> smono (handle haversine_km req st) st.
Proof.
  intro Hr. destruct req as [| t | t | t z | t | t b |]; cbn [handle resets] in *.
  - apply smono_same_zones. unfold get_routes, init_route_trucks. cbn [snd].
    apply fold_init_routes.
  - destruct t; apply smono_refl.
  - apply smono_same_zones. unfold get_truck_state, init_route_trucks.
    destruct t; cbn [snd]; [rewrite (proj2 (init_if_needed_routes _ _ _))|];
      apply fold_init_routes.
  - unfold confirm_zone. cbv zeta. split_matches; cbn [snd]; repeat mono_step.
  - unfold confirm_route. cbv zeta.
    destruct (get_route_for_truck t _); cbn [snd]; [|apply smono_init].
    do 2 mono_step.
    refine (smono_trans _ (init_truck_state_if_needed t false st) _ _ (smono_init _ _ _)).
    unfold smono. cbn [zones set_zones]. generalize (zones (init_truck_state_if_needed t false st)).
    intro l. induction l as [|x l IH]; cbn [map]; constructor; [|exact IH].
    destruct (Z.eqb _ _); auto.
  - subst b. unfold simulate_endpoint. destruct t as [t|]; [apply smono_simulate|].
    unfold simulate_fleet. rewrite (proj1 (simulate_trucks_fold haversine_km _ false st)).
    generalize (map r_truckId (routes st)). intro tids. revert st.
    induction tids as [|t tids IH]; intro st; [apply smono_refl|].
    cbn [fold_left]. eapply smono_trans; [apply IH | apply smono_simulate].
  - discriminate.
Qed.

(** Extra X11.  No request other than a reset ([POST /reset], or
    [POST /simulate] with [reset] true) ever turns a [Collected] zone back
    to [Pending]: along such requests the set of collected zones only
    grows. *)
Theorem collected_zones_stay_collected (haversine_km : Q * Q -> Q * Q -> Q)
  (reqs : list Request) (st : Store) :
  forallb (fun r => negb (resets r)) reqs = true ->
  Forall2 (fun z' z => is_collected z = true -> is_collected z' = true)
    (zones (handle_all haversine_km reqs st)) (zones st).
Proof.
  unfold handle_all. revert st. induction reqs as [|r rs IH]; intros st H; cbn [fold_left].
  - apply zmono_refl.
  - cbn [forallb] in H. apply andb_true_iff in H. destruct H as [H1 H2].
    apply negb_true_iff in H1.
    exact (smono_trans _ _ _ (IH _ H2) (smono_handle haversine_km r st H1)).
Qed.

Lemma collected_zones_stay_collected_witness :
  forallb (fun r => negb (resets r)) [ReqConfirmRoute 1; ReqSimulate None false] = true /\
  Forall2 (fun z' z => is_collected z = true -> is_collected z' = true)
    (zones (handle_all flat_km [ReqConfirmRoute 1; ReqSimulate None false] initial_store))
    (zones initial_store).
Proof.
  split; [reflexivity|].
  apply (collected_zones_stay_collected flat_km _ initial_store). reflexivity.
Defined.

(** ** Successful confirmations *)

Lemma update_route_status_frame (t : Z) (st : Store) :
  zones (update_route_status t st) = zones st /\
  truck_state (update_route_status t st) = truck_state st.
Proof.
  unfold update_route_status. destruct (get_route_for_truck t st) as [[? ?]|]; split; reflexivity.
Qed.

(** Extra X12.  A successful [POST /confirm-zone] for zone [zone_id] marks
    exactly that zone (a pending zone of the truck) [Collected] and changes
    no other zone; the returned twin is the one stored, located at
    [str(binId)], with status [COLLECTING] and a load of at most
    [MAX_LOAD_KG]; the returned route is the truck's route after the
    status update. *)
Theorem confirm_zone_success (haversine_km : Q * Q -> Q * Q -> Q)
  (truck_id zone_id : Z) (st : Store) (s : TruckState) (z : Zone) (r : option Route) :
  fst (confirm_zone haversine_km truck_id zone_id st) = Confirmed s z r ->
  let st' := snd (confirm_zone haversine_km truck_id zone_id st) in
  exists i z0,
    find_zone zone_id st = Some (i, z0) /\ z_truckId z0 = truck_id /\
    z_status z0 = ZonePending /\ z = zone_with_status ZoneCollected z0 /\
    zones st' = modify_nth i (zone_with_status ZoneCollected) (zones st) /\
    ts_lookup truck_id (truck_state st') = Some s /\
    currentLocation s = string_of_Z (binId z0) /\ t_status s = COLLECTING /\
    (cumCollectedWeightKg s <= MAX_LOAD_KG)%Q /\
    r = option_map snd (get_route_for_truck truck_id st').
Proof.
  destruct (confirm_zone haversine_km truck_id zone_id st) as [res st'] eqn:H.
  cbn [fst snd]. intro Hres. subst res.
  unfold confirm_zone in H. cbv zeta in H.
  destruct (init_if_needed_routes truck_id false st) as [HR HZ].
  split_matches_in H; inversion H; subst; clear H.
  match goal with Hq : q_lt MAX_LOAD_KG _ = false |- _ => apply q_lt_false in Hq end.
  match goal with Ht : negb (Z.eqb (z_truckId _) _) = false |- _ =>
    apply negb_false_iff, Z.eqb_eq in Ht end.
  match goal with Hp : negb (is_pending _) = false |- _ =>
    apply negb_false_iff in Hp; unfold is_pending in Hp end.
  do 2 eexists. split; [unfold find_zone; rewrite <- HZ; eassumption|].
  split; [assumption|]. split; [destruct (z_status _); congruence|].
  split; [reflexivity|].
  rewrite (proj1 (update_route_status_frame _ _)), (proj2 (update_route_status_frame _ _)).
  cbn [zones truck_state set_zones ts_set set_truck_state].
  split; [rewrite HZ; reflexivity|]. split; [apply ts_lookup_insert_same|].
  split; [reflexivity|]. split; [reflexivity|]. split; [assumption|reflexivity].
Qed.

Lemma confirm_zone_success_witness :
  exists s z r, fst (confirm_zone flat_km 1 101 initial_store) = Confirmed s z r /\
    currentLocation s = "61".
Proof.
  do 3 eexists. split; [vm_compute; reflexivity|].
  match goal with |- currentLocation ?s = _ =>
    destruct (confirm_zone_success flat_km 1 101 initial_store s _ _ eq_refl)
      as [i [z0 [Hf [_ [_ [_ [_ [_ [Hl _]]]]]]]]] end.
  rewrite Hl. vm_compute in Hf. injection Hf as <- <-. reflexivity.
Defined.

Lemma forallb_collected_after_map (t : Z) (l : list Zone) :
  forallb is_collected
    (filter (fun z => Z.eqb (z_truckId z) t)
       (map (fun z => if Z.eqb (z_truckId z) t then zone_with_status ZoneCollected z else z) l))
  = true.
Proof.
  induction l as [|z l IH]; [reflexivity|]. cbn [map filter].
  destruct (Z.eqb (z_truckId z) t) eqn:E; cbn [z_truckId zone_with_status];
    rewrite ?E; [exact IH | exact IH].
Qed.

(** Extra X13.  [POST /confirm-route] for a truck without a route fails
    and only creates the truck's twin.  For a truck with a route it
    succeeds: every zone of the truck becomes [Collected] (the others are
    unchanged), the truck's route becomes [Collected] (the other routes are
    unchanged), the twin's status becomes [DONE], and no other twin
    changes. *)
Theorem confirm_route_spec (truck_id : Z) (st : Store) :
  (get_route_for_truck truck_id st = None ->
     confirm_route truck_id st = (false, init_truck_state_if_needed truck_id false st)) /\
  (forall i rt, get_route_for_truck truck_id st = Some (i, rt) ->
     let '(ok, st') := confirm_route truck_id st in
     ok = true /\
     zones st' = map (fun z => if Z.eqb (z_truckId z) truck_id
                               then zone_with_status ZoneCollected z else z) (zones st) /\
     get_route_for_truck truck_id st' = Some (i, route_with_status RouteCollected rt) /\
     (forall j, j <> i -> nth_error (routes st') j = nth_error (routes st) j) /\
     t_status (ts_get truck_id st') = DONE /\
     (forall k, k <> truck_id -> ts_lookup k (truck_state st') = ts_lookup k (truck_state st))).
Proof.
  destruct (init_if_needed_routes truck_id false st) as [HR HZ].
  split.
  - intro Hn. unfold confirm_route. rewrite get_route_init, Hn. reflexivity.
  - intros i rt Hr. unfold confirm_route. rewrite get_route_init, Hr. cbv zeta.
    set (st1 := init_truck_state_if_needed truck_id false st) in *.
    set (f := fun z => if Z.eqb (z_truckId z) truck_id then zone_with_status ZoneCollected z else z).
    set (st2 := set_zones (map f (zones st1)) st1).
    assert (Hr2 : get_route_for_truck truck_id st2 = Some (i, rt))
      by (unfold get_route_for_truck; cbn [st2 routes set_zones]; rewrite HR; exact Hr).
    assert (Hs : route_status_of (get_zones_for_truck truck_id st2) = RouteCollected).
    { unfold route_status_of, get_zones_for_truck. cbn [st2 zones set_zones].
      unfold f. rewrite forallb_collected_after_map. reflexivity. }
    assert (Hu : update_route_status truck_id st2 =
      set_routes (modify_nth i (route_with_status RouteCollected) (routes st2)) st2)
      by (unfold update_route_status; rewrite Hr2, Hs; reflexivity).
    rewrite Hu. split; [reflexivity|].
    cbn [zones routes truck_state ts_set set_truck_state set_routes st2 set_zones].
    split; [rewrite HZ; reflexivity|].
    split.
    { unfold get_route_for_truck. cbn [routes]. rewrite HR.
      unfold get_route_for_truck in Hr. apply (find_index_modify _ _ _ _ _ Hr). reflexivity. }
    split; [intros j Hj; rewrite HR; apply nth_error_modify_other; congruence|].
    split; [unfold ts_get, ts_set; cbn [truck_state set_truck_state];
            rewrite ts_lookup_insert_same; reflexivity|].
    intros k Hk. rewrite ts_lookup_insert_other by congruence.
    unfold st1. rewrite init_lookup. destruct (Z.eqb_spec truck_id k); [congruence | reflexivity].
Qed.

(** ** The simulation timeline *)

(** The segments [(step_idx, node_seq[step_idx], node_seq[step_idx + 1])]
    of the loop [for step_idx in range(len(node_seq) - 1)], from step
    [step] and node [src] on. *)
Fixpoint segments (step : Z) (src : string) (rest : list string) : list (Z * string * string) :=
  match rest with
  | [] => []
  | dst :: rest' => (step, src, dst) :: segments (step + 1) dst rest'
  end.

Definition entry_segment (e : Entry) : Z * string * string := (e_step e, e_from e, e_to e).

(** The events after which the walk [break]s. *)
Definition terminal (e : Entry) : bool :=
  match e_event e with
  | BATTERY_EMERGENCY_RETURN | CAPACITY_EXCEEDED_RETURN => true
  | _ => false
  end.

Section WalkTimeline.

Variable haversine_km : Q * Q -> Q * Q -> Q.

Lemma walk_timeline (t : Z) (zbb : list (Z * nat)) (rest : list string) :
  forall step src st,
  let tl := snd (walk haversine_km t zbb step src rest st) in
  map entry_segment tl = firstn (length tl) (segments step src rest) /\
  (rest <> [] -> tl <> []) /\
  (forall i e, nth_error tl i = Some e -> terminal e = true -> S i = length tl) /\
  (length tl = length rest \/ exists pre e, tl = (pre ++ [e])%list /\ terminal e = true).
Proof.
  induction rest as [|dst rest IH]; intros step src st; cbv zeta; cbn [walk].
  - cbn [snd map length firstn]. split; [reflexivity|]. split; [congruence|].
    split; [intros [|i] e H; discriminate | left; reflexivity].
  - destruct (q_lt _ MIN_BATTERY_KWH);
      [|destruct (collect_target _ _ _) as [[zi z]|];
        [destruct (q_lt MAX_LOAD_KG _)|]].
    1,2: cbn [snd map length firstn segments]; split; [reflexivity|];
         split; [discriminate|];
         split; [intros [|[|i]] e H Ht; cbn in H; try discriminate; reflexivity|];
         right; eexists [], _; split; reflexivity.
    all: rewrite snd_let_cons;
      match goal with |- context [walk ?h ?tt ?zz (?s + 1) ?d ?r ?x] =>
        destruct (IH (s + 1) d x) as [I1 [I2 [I3 I4]]];
        cbv zeta in I1, I2, I3, I4;
        generalize dependent (snd (walk h tt zz (s + 1) d r x)) end;
      intros tl I1 I2 I3 I4; cbn [map length firstn segments].
    all: split; [rewrite <- I1; reflexivity|]; split; [discriminate|]; split;
      [intros [|i] e H Ht; cbn in H; [injection H as <-; discriminate|];
       rewrite (I3 i e H Ht); reflexivity|].
    all: destruct I4 as [I4|[pre [e [I4 I5]]]];
      [left; cbn [length]; rewrite I4; reflexivity
      |right; eexists (_ :: pre), e; rewrite I4; split; [reflexivity | exact I5]].
Qed.

Lemma walk_battery_floor (t : Z) (zbb : list (Z * nat)) (rest : list string) :
  forall step src st,
  (MIN_BATTERY_KWH <= batteryKWh (ts_get t st))%Q ->
  Forall (fun e => MIN_BATTERY_KWH <= e_batteryKWhAfter e)%Q
    (snd (walk haversine_km t zbb step src rest st)) /\
  (MIN_BATTERY_KWH <= batteryKWh (ts_get t (fst (walk haversine_km t zbb step src rest st))))%Q.
Proof.
  induction rest as [|dst rest IH]; intros step src st H; cbn [walk];
    [split; [constructor | exact H]|].
  destruct (q_lt _ MIN_BATTERY_KWH) eqn:Eb;
    [cbn [fst snd]; rewrite ts_get_set; split; [constructor; [exact H | constructor] | exact H]|].
  apply q_lt_false in Eb.
  destruct (collect_target _ _ _) as [[zi z]|];
    [destruct (q_lt MAX_LOAD_KG _);
     [cbn [fst snd]; rewrite ts_get_set; split; [constructor; [exact Eb | constructor] | exact Eb]|]|].
  all: rewrite fst_let_cons, snd_let_cons;
    match goal with |- context [walk ?h ?tt ?zz (?s + 1) ?d ?r (ts_set ?t0 ?x ?s0)] =>
      destruct (IH (s + 1) d (ts_set t0 x s0) ltac:(rewrite ts_get_set; exact Eb)) as [I1 I2] end;
    split; [constructor; [exact Eb | exact I1] | exact I2].
Qed.

Lemma walk_load_cap (t : Z) (zbb : list (Z * nat)) (rest : list string) :
  forall step src st,
  (cumCollectedWeightKg (ts_get t st) <= MAX_LOAD_KG)%Q ->
  Forall (fun e => e_event e <> CAPACITY_EXCEEDED_RETURN -> e_loadKg e <= MAX_LOAD_KG)%Q
    (snd (walk haversine_km t zbb step src rest st)) /\
  (t_status (ts_get t (fst (walk haversine_km t zbb step src rest st))) <> CAPACITY_RETURN ->
   cumCollectedWeightKg (ts_get t (fst (walk haversine_km t zbb step src rest st))) <= MAX_LOAD_KG)%Q.
Proof.
  induction rest as [|dst rest IH]; intros step src st H; cbn [walk];
    [split; [constructor | intros _; exact H]|].
  destruct (q_lt _ MIN_BATTERY_KWH);
    [cbn [fst snd]; rewrite ts_get_set; split; [constructor; [intros _; exact H | constructor]
                                               | intros _; exact H]|].
  destruct (collect_target _ _ _) as [[zi z]|]; [destruct (q_lt MAX_LOAD_KG _) eqn:Ec|].
  - cbn [fst snd]. rewrite ts_get_set. split.
    + constructor; [cbn; congruence | constructor].
    + cbn. congruence.
  - apply q_lt_false in Ec. rewrite fst_let_cons, snd_let_cons.
    match goal with |- context [walk ?h ?tt ?zz (?s + 1) ?d ?r (ts_set ?t0 ?x ?s0)] =>
      destruct (IH (s + 1) d (ts_set t0 x s0) ltac:(rewrite ts_get_set; exact Ec)) as [I1 I2] end.
    split; [constructor; [intros _; exact Ec | exact I1] | exact I2].
  - rewrite fst_let_cons, snd_let_cons.
    match goal with |- context [walk ?h ?tt ?zz (?s + 1) ?d ?r (ts_set ?t0 ?x ?s0)] =>
      destruct (IH (s + 1) d (ts_set t0 x s0) ltac:(rewrite ts_get_set; exact H)) as [I1 I2] end.
    split; [constructor; [intros _; exact H | exact I1] | exact I2].
Qed.

End WalkTimeline.

Lemma ts_get_update_route_status (t k : Z) (st : Store) :
  ts_get k (update_route_status t st) = ts_get k st.
Proof. unfold ts_get. rewrite (proj2 (update_route_status_frame t st)). reflexivity. Qed.

Lemma finalize_twin (t : Z) (st : Store) :
  ts_get t (finalize_status t st) = ts_get t st \/
  (ts_get t (finalize_status t st) = ts_with_status DONE (ts_get t st) /\
   t_status (ts_get t st) <> EMERGENCY_RETURN /\ t_status (ts_get t st) <> CAPACITY_RETURN).
Proof.
  unfold finalize_status. cbv zeta.
  destruct (t_status (ts_get t st)) eqn:Es; try (left; reflexivity);
    (destruct (forallb _ _); [right; rewrite ts_get_update_route_status, ts_get_set;
                               split; [reflexivity | split; discriminate]
                             | left; reflexivity]).
Qed.

(** A [SimOk] result comes from the walk of the truck's route. *)
Lemma simulate_ok_walk (haversine_km : Q * Q -> Q * Q -> Q) (t : Z) (r : bool) (st : Store)
  tid fs ro zs tl :
  fst (simulate_truck_full_route haversine_km t r st) = SimOk tid fs ro zs tl ->
  exists i route n0 rest,
    get_route_for_truck t st = Some (i, route) /\ nodeSequence route = n0 :: rest /\
    let st1 := init_truck_state_if_needed t r st in
    let st2 := ts_set t (walk_start_state (ts_get t st1)) st1 in
    tl = snd (walk haversine_km t (zone_by_bin t st2) 0 n0 rest st2) /\
    fs = ts_get t (finalize_status t (fst (walk haversine_km t (zone_by_bin t st2) 0 n0 rest st2))).
Proof.
  unfold simulate_truck_full_route. rewrite get_route_init.
  destruct (get_route_for_truck t st) as [[i route]|]; [|discriminate].
  destruct (negb _); [discriminate|].
  destruct (nodeSequence route) as [|n0 rest] eqn:En; [discriminate|].
  intro H. exists i, route, n0, rest. split; [reflexivity|]. split; [exact En|]. cbv zeta.
  match goal with H : context [walk ?h ?tt ?zz 0 n0 rest ?x] |- _ =>
    destruct (walk h tt zz 0 n0 rest x) as [st3 tl3] end.
  cbn [fst] in H. injection H as _ <- _ _ <-. split; reflexivity.
Qed.

(** Extra X14.  The timeline of a full-route simulation lists the route's
    segments in order, [(0, node_seq[0], node_seq[1])],
    [(1, node_seq[1], node_seq[2])], ...: a non-empty prefix of them when the
    route has at least one segment.  Only its last entry can be a
    [BATTERY_EMERGENCY_RETURN] or [CAPACITY_EXCEEDED_RETURN], and a
    timeline shorter than the route ends with one of them. *)
Theorem simulate_timeline_segments (haversine_km : Q * Q -> Q * Q -> Q)
  (t : Z) (r : bool) (st : Store) tid fs ro zs tl :
  fst (simulate_truck_full_route haversine_km t r st) = SimOk tid fs ro zs tl ->
  exists i route n0 rest,
    get_route_for_truck t st = Some (i, route) /\ nodeSequence route = n0 :: rest /\
    map entry_segment tl = firstn (length tl) (segments 0 n0 rest) /\
    (rest <> [] -> tl <> []) /\
    (forall j e, nth_error tl j = Some e -> terminal e = true -> S j = length tl) /\
    (length tl = length rest \/ exists pre e, tl = (pre ++ [e])%list /\ terminal e = true).
Proof.
  intro H. destruct (simulate_ok_walk _ _ _ _ _ _ _ _ _ H) as [i [route [n0 [rest [Hr [Hn [Htl _]]]]]]].
  exists i, route, n0, rest. split; [exact Hr|]. split; [exact Hn|].
  subst tl. apply walk_timeline.
Qed.

Lemma simulate_timeline_segments_witness :
  exists tid fs ro zs tl,
    fst (simulate_truck_full_route flat_km 2 false initial_store) = SimOk tid fs ro zs tl /\
    exists i route n0 rest, get_route_for_truck 2 initial_store = Some (i, route) /\
      nodeSequence route = n0 :: rest /\
      map entry_segment tl = firstn (length tl) (segments 0 n0 rest).
Proof.
  destruct (fst (simulate_truck_full_route flat_km 2 false initial_store))
    as [e|tid fs ro zs tl] eqn:E; [vm_compute in E; discriminate|].
  exists tid, fs, ro, zs, tl. split; [reflexivity|].
  destruct (simulate_timeline_segments flat_km 2 false initial_store _ _ _ _ _ E)
    as [i [route [n0 [rest [H1 [H2 [H3 _]]]]]]].
  exists i, route, n0, rest. auto.
Defined.

(** Extra X15.  A full-route simulation starting from a twin with at
    least [MIN_BATTERY_KWH] never reports a battery below
    [MIN_BATTERY_KWH] after any timeline entry, and leaves the twin with at
    least [MIN_BATTERY_KWH]. *)
Theorem simulate_battery_floor (haversine_km : Q * Q -> Q * Q -> Q)
  (t : Z) (r : bool) (st : Store) tid fs ro zs tl :
  fst (simulate_truck_full_route haversine_km t r st) = SimOk tid fs ro zs tl ->
  (MIN_BATTERY_KWH <= batteryKWh (ts_get t (init_truck_state_if_needed t r st)))%Q ->
  Forall (fun e => MIN_BATTERY_KWH <= e_batteryKWhAfter e)%Q tl /\
  (MIN_BATTERY_KWH <= batteryKWh fs)%Q.
Proof.
  intros H Hb. destruct (simulate_ok_walk _ _ _ _ _ _ _ _ _ H) as [i [route [n0 [rest [_ [_ [Htl Hfs]]]]]]].
  cbv zeta in Htl, Hfs.
  match type of Htl with _ = snd (walk ?h ?tt ?zz 0 n0 rest ?x) =>
    destruct (walk_battery_floor h tt zz rest 0 n0 x ltac:(rewrite ts_get_set; exact Hb)) as [B1 B2] end.
  subst tl fs. split; [exact B1|].
  match goal with |- context [finalize_status t ?X] =>
    destruct (finalize_twin t X) as [E|[E _]] end; rewrite E; exact B2.
Qed.

Lemma simulate_battery_floor_witness :
  exists tid fs ro zs tl,
    fst (simulate_truck_full_route flat_km 1 false initial_store) = SimOk tid fs ro zs tl /\
    (MIN_BATTERY_KWH <= batteryKWh (ts_get 1 (init_truck_state_if_needed 1 false initial_store)))%Q /\
    (MIN_BATTERY_KWH <= batteryKWh fs)%Q.
Proof.
  assert (Hb : (MIN_BATTERY_KWH <= batteryKWh (ts_get 1 (init_truck_state_if_needed 1 false initial_store)))%Q)
    by (vm_compute; discriminate).
  destruct (fst (simulate_truck_full_route flat_km 1 false initial_store))
    as [e|tid fs ro zs tl] eqn:E; [vm_compute in E; discriminate|].
  exists tid, fs, ro, zs, tl. split; [reflexivity|]. split; [exact Hb|].
  exact (proj2 (simulate_battery_floor flat_km 1 false initial_store _ _ _ _ _ E Hb)).
Defined.

(** Extra X16.  A full-route simulation starting from a twin loaded with
    at most [MAX_LOAD_KG] reports a load of at most [MAX_LOAD_KG] in every
    timeline entry but a [CAPACITY_EXCEEDED_RETURN], and ends with a twin
    loaded with at most [MAX_LOAD_KG] unless its status is
    [CAPACITY_RETURN]. *)
Theorem simulate_load_cap (haversine_km : Q * Q -> Q * Q -> Q)
  (t : Z) (r : bool) (st : Store) tid fs ro zs tl :
  fst (simulate_truck_full_route haversine_km t r st) = SimOk tid fs ro zs tl ->
  (cumCollectedWeightKg (ts_get t (init_truck_state_if_needed t r st)) <= MAX_LOAD_KG)%Q ->
  Forall (fun e => e_event e <> CAPACITY_EXCEEDED_RETURN -> e_loadKg e <= MAX_LOAD_KG)%Q tl /\
  (t_status fs <> CAPACITY_RETURN -> cumCollectedWeightKg fs <= MAX_LOAD_KG)%Q.
Proof.
  intros H Hw. destruct (simulate_ok_walk _ _ _ _ _ _ _ _ _ H) as [i [route [n0 [rest [_ [_ [Htl Hfs]]]]]]].
  cbv zeta in Htl, Hfs.
  match type of Htl with _ = snd (walk ?h ?tt ?zz 0 n0 rest ?x) =>
    destruct (walk_load_cap h tt zz rest 0 n0 x ltac:(rewrite ts_get_set; exact Hw)) as [L1 L2] end.
  subst tl fs. split; [exact L1|].
  match goal with |- context [finalize_status t ?X] =>
    destruct (finalize_twin t X) as [E|[E [_ Hc]]] end; rewrite E; [exact L2|]. intros _. apply L2. exact Hc.
Qed.

Lemma simulate_load_cap_witness :
  exists tid fs ro zs tl,
    fst (simulate_truck_full_route flat_km 1 false initial_store) = SimOk tid fs ro zs tl /\
    (cumCollectedWeightKg (ts_get 1 (init_truck_state_if_needed 1 false initial_store)) <= MAX_LOAD_KG)%Q /\
    Forall (fun e => e_event e <> CAPACITY_EXCEEDED_RETURN -> e_loadKg e <= MAX_LOAD_KG)%Q tl.
Proof.
  assert (Hw : (cumCollectedWeightKg (ts_get 1 (init_truck_state_if_needed 1 false initial_store))
                <= MAX_LOAD_KG)%Q) by (vm_compute; discriminate).
  destruct (fst (simulate_truck_full_route flat_km 1 false initial_store))
    as [e|tid fs ro zs tl] eqn:E; [vm_compute in E; discriminate|].
  exists tid, fs, ro, zs, tl. split; [reflexivity|]. split; [exact Hw|].
  exact (proj1 (simulate_load_cap flat_km 1 false initial_store _ _ _ _ _ E Hw)).
Defined.

(** The battery readings of a timeline, from the battery [b] the truck
    starts with to the battery [b_final] it ends with: each entry starts
    from the battery the previous one left, an emergency entry leaves it
    as it is and any other entry takes its energy off it. *)
Fixpoint battery_ledger (b : Q) (tl : list Entry) (b_final : Q) : Prop :=
  match tl with
  | [] => b_final = b
  | e :: tl' =>
      e_batteryKWhBefore e = b /\
      e_batteryKWhAfter e =
        match e_event e with
        | BATTERY_EMERGENCY_RETURN => b
        | _ => (b - e_energyKWh e)%Q
        end /\
      battery_ledger (e_batteryKWhAfter e) tl' b_final
  end.

Lemma walk_battery_ledger (haversine_km : Q * Q -> Q * Q -> Q) (t : Z) (zbb : list (Z * nat))
  (rest : list string) :
  forall step src st,
  battery_ledger (batteryKWh (ts_get t st))
    (snd (walk haversine_km t zbb step src rest st))
    (batteryKWh (ts_get t (fst (walk haversine_km t zbb step src rest st)))).
Proof.
  induction rest as [|dst rest IH]; intros step src st; cbn [walk]; [reflexivity|].
  destruct (q_lt _ MIN_BATTERY_KWH);
    [cbn [fst snd battery_ledger]; rewrite ts_get_set; repeat split; reflexivity|].
  destruct (collect_target _ _ _) as [[zi z]|]; [destruct (q_lt MAX_LOAD_KG _)|].
  - cbn [fst snd battery_ledger]. rewrite ts_get_set. repeat split; reflexivity.
  - rewrite fst_let_cons, snd_let_cons. cbn [battery_ledger]. split; [reflexivity|].
    split; [reflexivity|].
    match goal with |- context [walk ?h ?tt ?zz (?s + 1) ?d ?r ?x] =>
      generalize (IH (s + 1) d x) end.
    rewrite ts_get_set. exact (fun H => H).
  - rewrite fst_let_cons, snd_let_cons. cbn [battery_ledger]. split; [reflexivity|].
    split; [reflexivity|].
    match goal with |- context [walk ?h ?tt ?zz (?s + 1) ?d ?r ?x] =>
      generalize (IH (s + 1) d x) end.
    rewrite ts_get_set. exact (fun H => H).
Qed.

(** Extra X17.  The battery readings of a full-route simulation account
    for all the energy used: the first timeline entry starts from the
    battery of the truck's twin before the run, each later entry from the
    battery the previous one left, every entry but a
    [BATTERY_EMERGENCY_RETURN] takes its [energyKWh] off the battery, and the
    final twin keeps the battery the last entry left. *)
Theorem simulate_battery_ledger (haversine_km : Q * Q -> Q * Q -> Q)
  (t : Z) (r : bool) (st : Store) tid fs ro zs tl :
  fst (simulate_truck_full_route haversine_km t r st) = SimOk tid fs ro zs tl ->
  battery_ledger (batteryKWh (ts_get t (init_truck_state_if_needed t r st))) tl (batteryKWh fs).
Proof.
  intro H. destruct (simulate_ok_walk _ _ _ _ _ _ _ _ _ H) as [i [route [n0 [rest [_ [_ [Htl Hfs]]]]]]].
  cbv zeta in Htl, Hfs. subst tl fs.
  match goal with |- context [walk ?h ?tt ?zz 0 n0 rest ?x] =>
    generalize (walk_battery_ledger h tt zz rest 0 n0 x) end.
  rewrite ts_get_set.
  match goal with |- context [finalize_status t ?X] =>
    destruct (finalize_twin t X) as [E|[E _]] end; rewrite E; exact (fun H => H).
Qed.

Lemma simulate_battery_ledger_witness :
  exists tid fs ro zs tl,
    fst (simulate_truck_full_route flat_km 1 false initial_store) = SimOk tid fs ro zs tl /\
    battery_ledger (batteryKWh (ts_get 1 (init_truck_state_if_needed 1 false initial_store)))
      tl (batteryKWh fs).
Proof.
  destruct (fst (simulate_truck_full_route flat_km 1 false initial_store))
    as [e|tid fs ro zs tl] eqn:E; [vm_compute in E; discriminate|].
  exists tid, fs, ro, zs, tl. split; [reflexivity|].
  exact (simulate_battery_ledger flat_km 1 false initial_store _ _ _ _ _ E).
Defined.

Lemma zbb_fold_positions (t b : Z) (zs : list Zone) :
  forall n acc i,
  fold_left (fun acc '(b', i) => if Z.eqb b' b then Some i else acc)
    (zone_positions t n zs) acc = Some i ->
  (n <= i /\ exists z, nth_error zs (i - n) = Some z /\ z_truckId z = t /\ binId z = b /\
     forall j z', (i < j)%nat -> nth_error zs (j - n) = Some z' -> z_truckId z' = t ->
     binId z' <> b)%nat \/
  (acc = Some i /\ forall j z', (n <= j)%nat -> nth_error zs (j - n) = Some z' ->
     z_truckId z' = t -> binId z' <> b).
Proof.
  induction zs as [|z r IH]; intros n acc i H.
  - right. split; [exact H|]. intros j z' _ Hj. destruct (j - n)%nat; discriminate.
  - cbn [zone_positions] in H.
    assert (Hs : forall j, (n < j)%nat -> (j - n = S (j - S n))%nat) by (intros; lia).
    destruct (Z.eqb_spec (z_truckId z) t) as [Ho|Ho]; cbn [fold_left] in H;
      destruct (IH _ _ _ H) as [[Hle [x [Hx [Hxo [Hxb Hl]]]]]|[Ha Hn]].
    + left. split; [lia|]. exists x. rewrite Hs by lia. repeat split; try assumption.
      intros j z' Hij Hj Hz'. rewrite Hs in Hj by lia. exact (Hl j z' Hij Hj Hz').
    + destruct (Z.eqb_spec (binId z) b) as [Hb|Hb].
      * injection Ha as <-. left. split; [lia|]. exists z. rewrite Nat.sub_diag.
        repeat split; try assumption.
        intros j z' Hij Hj Hz'. rewrite Hs in Hj by lia. apply (Hn j z'); [lia|exact Hj|exact Hz'].
      * right. split; [exact Ha|]. intros j z' Hnj Hj Hz'.
        destruct (Nat.eq_dec j n) as [->|Hne].
        -- rewrite Nat.sub_diag in Hj. injection Hj as <-. exact Hb.
        -- rewrite Hs in Hj by lia. apply (Hn j z'); [lia|exact Hj|exact Hz'].
    + left. split; [lia|]. exists x. rewrite Hs by lia. repeat split; try assumption.
      intros j z' Hij Hj Hz'. rewrite Hs in Hj by lia. exact (Hl j z' Hij Hj Hz').
    + right. split; [exact Ha|]. intros j z' Hnj Hj Hz'.
      destruct (Nat.eq_dec j n) as [->|Hne].
      * rewrite Nat.sub_diag in Hj. injection Hj as <-. contradiction.
      * rewrite Hs in Hj by lia. apply (Hn j z'); [lia|exact Hj|exact Hz'].
Qed.

Lemma zbb_fold_positions_none (t b : Z) (zs : list Zone) :
  forall n acc,
  fold_left (fun acc '(b', i) => if Z.eqb b' b then Some i else acc)
    (zone_positions t n zs) acc = None ->
  acc = None /\ forall j z', (n <= j)%nat -> nth_error zs (j - n) = Some z' ->
     z_truckId z' = t -> binId z' <> b.
Proof.
  induction zs as [|z r IH]; intros n acc H.
  - split; [exact H|]. intros j z' _ Hj. destruct (j - n)%nat; discriminate.
  - cbn [zone_positions] in H.
    assert (Hs : forall j, (n < j)%nat -> (j - n = S (j - S n))%nat) by (intros; lia).
    destruct (Z.eqb_spec (z_truckId z) t) as [Ho|Ho]; cbn [fold_left] in H;
      destruct (IH _ _ H) as [Ha Hn].
    + destruct (Z.eqb_spec (binId z) b) as [Hb|Hb]; [discriminate|].
      split; [exact Ha|]. intros j z' Hnj Hj Hz'.
      destruct (Nat.eq_dec j n) as [->|Hne].
      * rewrite Nat.sub_diag in Hj. injection Hj as <-. exact Hb.
      * rewrite Hs in Hj by lia. apply (Hn j z'); [lia|exact Hj|exact Hz'].
    + split; [exact Ha|]. intros j z' Hnj Hj Hz'.
      destruct (Nat.eq_dec j n) as [->|Hne].
      * rewrite Nat.sub_diag in Hj. injection Hj as <-. contradiction.
      * rewrite Hs in Hj by lia. apply (Hn j z'); [lia|exact Hj|exact Hz'].
Qed.

(** Extra X18.  The simulation's [zone_by_bin] lookup of a bin gives the
    position of the LAST zone of the truck with that [binId]: the zone there
    belongs to the truck and has that bin, and no later zone of the truck
    has it.  A bin no zone of the truck has is not found. *)
Theorem zone_by_bin_last_wins (t b : Z) (st : Store) :
  match zbb_lookup b (zone_by_bin t st) with
  | Some i =>
      exists z, nth_error (zones st) i = Some z /\ z_truckId z = t /\ binId z = b /\
      forall j z', (i < j)%nat -> nth_error (zones st) j = Some z' -> z_truckId z' = t ->
        binId z' <> b
  | None =>
      forall j z', nth_error (zones st) j = Some z' -> z_truckId z' = t -> binId z' <> b
  end.
Proof.
  unfold zbb_lookup, zone_by_bin.
  destruct (fold_left _ _ None) as [i|] eqn:E.
  - destruct (zbb_fold_positions t b (zones st) O None i E)
      as [[_ [z [Hz [Ho [Hb Hl]]]]]|[Ha _]]; [|discriminate].
    rewrite Nat.sub_0_r in Hz. exists z. repeat split; try assumption.
    intros j z' Hij Hj. apply (Hl j z' Hij). rewrite Nat.sub_0_r. exact Hj.
  - destruct (zbb_fold_positions_none t b (zones st) O None E) as [_ Hn].
    intros j z' Hj. apply (Hn j z'); [lia|]. rewrite Nat.sub_0_r. exact Hj.
Qed.
